(** * Vikunja API: bulk task update, team resource and the generic read-all handler

    A shallow embedding of
    - [pkg/models/bulk_task.go]  ([BulkTask.checkIfTasksAreOnTheSameList],
      [BulkTask.Update]),
    - the team model ([addMoreInfoToTeams], [Team.ReadOne], [Team.ReadAll],
      [Team.Create], [Team.Delete]),
    - the generic web handler [WebHandler.ReadAllWeb].

    Go's [int]/[int64] are modelled as [Z], strings as [string], slices as
    [list], database relations as lists of rows in insertion order. A
    database session carries the relations together with a script of injected
    statement failures, so that every [if err != nil] branch of the source can
    be exercised. *)

From Stdlib Require Import ZArith List String Ascii Bool Lia DecimalString.
From Stdlib Require Import Floats.SpecFloat Sorting.Permutation.
Import ListNotations.
Open Scope string_scope.
Open Scope Z_scope.

(** ** Errors *)

(** The error values the modelled code returns. [ErrDB] stands for any error
    reported by the persistence layer. *)
Inductive Error : Type :=
| ErrBulkTasksNeedAtLeastOne
| ErrBulkTasksMustBeInSameList (ShouldBeID IsID : Z)
| ErrGenericForbidden
| ErrTeamNameCannotBeEmpty
| ErrTeamDoesNotExist (TeamID : Z)
| ErrUserDoesNotExist
| ErrNotAUser
| ErrDB.

(** Modelled from the spec: the [HTTPError()] methods of the error types are
    not part of the sources at hand; the status classes follow the error
    taxonomy (validation, cross-container and empty-target errors are 400,
    authorization 403, not found 404, persistence failures 500). *)
Definition HTTPStatus (e : Error) : Z :=
  match e with
  | ErrBulkTasksNeedAtLeastOne => 400
  | ErrBulkTasksMustBeInSameList _ _ => 400
  | ErrGenericForbidden => 403
  | ErrTeamNameCannotBeEmpty => 400
  | ErrTeamDoesNotExist _ => 404
  | ErrUserDoesNotExist => 404
  | ErrNotAUser => 500
  | ErrDB => 500
  end.

(** ** Injected statement failures *)

(** Every statement sent to the session consumes one entry of the script;
    [true] makes that statement fail. An exhausted script means no failure. *)
Definition nextFault (faults : list bool) : bool * list bool :=
  match faults with
  | [] => (false, [])
  | b :: rest => (b, rest)
  end.

(** ** Bulk task update *)

Module Bulk.

(** Modelled from the spec: the declaration of [Task] is not part of the
    sources at hand. The fields are the ones the spec's data model and the
    column list of [BulkTask.Update] name: identity, title, description, done
    flag, due/start/end date and reminders (seconds, [0] = unset), owning
    list, repeat interval, priority, assignees and labels, creator and the
    system-assigned timestamps. *)
Record Task : Type := mkTask {
  ID : Z;
  Title : string;
  Description : string;
  Done : bool;
  DueDate : Z;
  Reminders : list Z;
  ListID : Z;
  RepeatAfter : Z;
  Priority : Z;
  StartDate : Z;
  EndDate : Z;
  Assignees : list Z;
  Labels : list Z;
  CreatedByID : Z;
  Created : Z;
  Updated : Z
}.

(** The zero value of [Task]. *)
Definition emptyTask : Task :=
  mkTask 0 "" "" false 0 [] 0 0 0 0 0 [] [] 0 0 0.

(** [BulkTask]: the ids to update, the loaded targets and the embedded
    payload [Task]. *)
Record BulkTask : Type := mkBulkTask {
  IDs : list Z;
  Tasks : list Task;
  Payload : Task
}.

(** The session: the [tasks] relation, the [task_assignees] relation (task
    id, user id) and the failure script. *)
Record Session : Type := mkSession {
  tasks : list Task;
  task_assignees : list (Z * Z);
  faults : list bool
}.

(** *** mergo.Merge with WithOverride *)

(** A source field overrides the destination field unless it is the zero
    value of its type. *)
Definition overZ (dst src : Z) : Z := if src =? 0 then dst else src.
Definition overString (dst src : string) : string :=
  if String.eqb src "" then dst else src.
Definition overBool (dst src : bool) : bool := if src then true else dst.
Definition overList {A : Type} (dst src : list A) : list A :=
  match src with [] => dst | _ :: _ => src end.

Definition merge (dst src : Task) : Task :=
  {| ID := overZ (ID dst) (ID src);
     Title := overString (Title dst) (Title src);
     Description := overString (Description dst) (Description src);
     Done := overBool (Done dst) (Done src);
     DueDate := overZ (DueDate dst) (DueDate src);
     Reminders := overList (Reminders dst) (Reminders src);
     ListID := overZ (ListID dst) (ListID src);
     RepeatAfter := overZ (RepeatAfter dst) (RepeatAfter src);
     Priority := overZ (Priority dst) (Priority src);
     StartDate := overZ (StartDate dst) (StartDate src);
     EndDate := overZ (EndDate dst) (EndDate src);
     Assignees := overList (Assignees dst) (Assignees src);
     Labels := overList (Labels dst) (Labels src);
     CreatedByID := overZ (CreatedByID dst) (CreatedByID src);
     Created := overZ (Created dst) (Created src);
     Updated := overZ (Updated dst) (Updated src) |}.

(** *** Field updates used below *)

Definition setDone (b : bool) (t : Task) : Task :=
  {| ID := ID t; Title := Title t; Description := Description t; Done := b;
     DueDate := DueDate t; Reminders := Reminders t; ListID := ListID t;
     RepeatAfter := RepeatAfter t; Priority := Priority t;
     StartDate := StartDate t; EndDate := EndDate t;
     Assignees := Assignees t; Labels := Labels t;
     CreatedByID := CreatedByID t; Created := Created t;
     Updated := Updated t |}.

Definition setAssignees (a : list Z) (t : Task) : Task :=
  {| ID := ID t; Title := Title t; Description := Description t;
     Done := Done t; DueDate := DueDate t; Reminders := Reminders t;
     ListID := ListID t; RepeatAfter := RepeatAfter t;
     Priority := Priority t; StartDate := StartDate t; EndDate := EndDate t;
     Assignees := a; Labels := Labels t;
     CreatedByID := CreatedByID t; Created := Created t;
     Updated := Updated t |}.

(** All date-bearing fields moved forward by [d] seconds. *)
Definition advanceDates (d : Z) (t : Task) : Task :=
  {| ID := ID t; Title := Title t; Description := Description t;
     Done := Done t; DueDate := DueDate t + d;
     Reminders := map (fun r => r + d) (Reminders t);
     ListID := ListID t; RepeatAfter := RepeatAfter t;
     Priority := Priority t; StartDate := StartDate t + d;
     EndDate := EndDate t + d;
     Assignees := Assignees t; Labels := Labels t;
     CreatedByID := CreatedByID t; Created := Created t;
     Updated := Updated t |}.

(** Modelled from the spec: [updateDone] is called by [BulkTask.Update] but
    defined elsewhere. "If a task has a positive repeat interval and the
    payload marks it done, instead of persisting Done=true the engine
    recomputes all date-bearing fields by advancing them by the interval and
    leaves Done=false." The function receives pointers to the target and to
    the payload; the dates are advanced on the target and the done mark is
    taken off the payload, so that the merge that follows does not set it. *)
Definition updateDone (oldTask newTask : Task) : Task * Task :=
  if (0 <? RepeatAfter oldTask) && Done newTask
  then (advanceDates (RepeatAfter oldTask) oldTask, setDone false newTask)
  else (oldTask, newTask).

(** Modelled from the spec: [GetTasksByIDs] is defined elsewhere; it "loads
    all targets", here the rows of [tasks] whose id is among the requested
    ones, with one statement. *)
Definition GetTasksByIDs (s : Session) (bt : BulkTask)
  : Session * BulkTask * option Error :=
  let '(failed, rest) := nextFault (faults s) in
  let s' := mkSession (tasks s) (task_assignees s) rest in
  if failed then (s', bt, Some ErrDB)
  else
    (s',
     mkBulkTask (IDs bt)
       (filter (fun t => existsb (Z.eqb (ID t)) (IDs bt)) (tasks s))
       (Payload bt),
     None).

(** The first target whose list differs from [firstListID]. *)
Fixpoint firstOtherList (firstListID : Z) (ts : list Task) : option Z :=
  match ts with
  | [] => None
  | t :: rest =>
      if ListID t =? firstListID then firstOtherList firstListID rest
      else Some (ListID t)
  end.

Definition checkIfTasksAreOnTheSameList (s : Session) (bt : BulkTask)
  : Session * BulkTask * option Error :=
  let '(s1, bt1, err) := GetTasksByIDs s bt in
  match err with
  | Some e => (s1, bt1, Some e)
  | None =>
      match Tasks bt1 with
      | [] => (s1, bt1, Some ErrBulkTasksNeedAtLeastOne)
      | first :: _ =>
          match firstOtherList (ListID first) (Tasks bt1) with
          | Some other =>
              (s1, bt1,
               Some (ErrBulkTasksMustBeInSameList (ListID first) other))
          | None => (s1, bt1, None)
          end
      end
  end.

(** *** The persistence step *)

(** [Cols("title", "description", "done", "due_date", "reminders",
    "repeat_after", "priority", "start_date", "end_date")]: the listed
    columns are taken from [src], every other column of the row stays. *)
Definition writeCols (row src : Task) : Task :=
  {| ID := ID row;
     Title := Title src;
     Description := Description src;
     Done := Done src;
     DueDate := DueDate src;
     Reminders := Reminders src;
     ListID := ListID row;
     RepeatAfter := RepeatAfter src;
     Priority := Priority src;
     StartDate := StartDate src;
     EndDate := EndDate src;
     Assignees := Assignees row;
     Labels := Labels row;
     CreatedByID := CreatedByID row;
     Created := Created row;
     Updated := Updated row |}.

(** [s.ID(id).Cols(...).Update(src)]: one statement on the rows with
    that id. *)
Definition updateCols (s : Session) (id : Z) (src : Task)
  : Session * option Error :=
  let '(failed, rest) := nextFault (faults s) in
  if failed then (mkSession (tasks s) (task_assignees s) rest, Some ErrDB)
  else
    (mkSession
       (map (fun row => if ID row =? id then writeCols row src else row)
          (tasks s))
       (task_assignees s) rest,
     None).

(** *** BulkTask.Update *)

Section Update.

(** [Task.updateTaskAssignees] is defined elsewhere. It is taken as a
    parameter that works on the [task_assignees] relation (consuming entries
    of the failure script) and on the assignees of the in-memory task. *)
Variable assigneeStep :
  list (Z * Z) -> list bool -> Task -> list Z ->
  list (Z * Z) * list bool * list Z * option Error.

Definition updateTaskAssignees (s : Session) (t : Task) (assignees : list Z)
  : Session * Task * option Error :=
  let '(rel, rest, mem, err) :=
    assigneeStep (task_assignees s) (faults s) t assignees in
  (mkSession (tasks s) rel rest, setAssignees mem t, err).

(** The in-memory part of one iteration after the assignees are updated:
    merge the payload over the target, then clear [Done] when the payload
    does not carry it. *)
Definition mergePayload (oldtask payload : Task) : Task :=
  let merged := merge oldtask payload in
  if negb (Done payload) then setDone false merged else merged.

(** The loop of [Update]: session, payload ([bt.Task], shared by all
    iterations) and the targets still to process; returns the targets as
    they are in memory afterwards. *)
Fixpoint updateLoop (s : Session) (payload : Task) (targets : list Task)
  : Session * Task * list Task * option Error :=
  match targets with
  | [] => (s, payload, [], None)
  | oldtask :: rest =>
      let '(old1, payload1) := updateDone oldtask payload in
      let '(s1, old2, err1) :=
        updateTaskAssignees s old1 (Assignees payload1) in
      match err1 with
      | Some e => (s1, payload1, old2 :: rest, Some e)
      | None =>
          let old3 := mergePayload old2 payload1 in
          let '(s2, err2) := updateCols s1 (ID old3) old3 in
          match err2 with
          | Some e => (s2, payload1, old3 :: rest, Some e)
          | None =>
              let '(s3, payload3, rest3, err3) :=
                updateLoop s2 payload1 rest in
              (s3, payload3, old3 :: rest3, err3)
          end
      end
  end.

Definition Update (s : Session) (bt : BulkTask)
  : Session * BulkTask * option Error :=
  let '(s', payload', targets', err) :=
    updateLoop s (Payload bt) (Tasks bt) in
  (s', mkBulkTask (IDs bt) targets' payload', err).

(** The identity under which the persistence step writes a target. *)
Definition writtenID (payload t : Task) : Z := overZ (ID t) (ID payload).

End Update.

(** A stand-in for the assignee helper used on concrete inputs: it replaces
    the assignee rows of the task when new assignees are given. *)
Definition replaceAssignees (rel : list (Z * Z)) (fs : list bool) (t : Task)
  (assignees : list Z) : list (Z * Z) * list bool * list Z * option Error :=
  match assignees with
  | [] => (rel, fs, Assignees t, None)
  | _ :: _ =>
      let '(failed, rest) := nextFault fs in
      if failed then (rel, rest, Assignees t, Some ErrDB)
      else
        ((filter (fun row => negb (fst row =? ID t)) rel
            ++ map (fun u => (ID t, u)) assignees)%list,
         rest, assignees, None)
  end.

(** *** Vocabulary of the properties *)

(** The type of the assignee helper [BulkTask.Update] is parameterised by. *)
Definition AssigneeStep : Type :=
  list (Z * Z) -> list bool -> Task -> list Z ->
  list (Z * Z) * list bool * list Z * option Error.

(** The columns of a stored task the persistence step does not list. *)
Definition unlisted (r : Task) : Z * Z * list Z * list Z * Z * Z * Z :=
  (ID r, ListID r, Assignees r, Labels r, CreatedByID r, Created r, Updated r).


(** The payload as a later iteration may see it. *)
Definition payloadLater (p p' : Task) : Prop :=
  p' = p \/ p' = setDone false p.

(** Sample data: a task with a reminder one minute before it is due, and a
    session that holds the given tasks and has no failure scripted. *)
Definition sampleTask (id list repeat due : Z) (done : bool) : Task :=
  mkTask id "water plants" "" done due [due - 60] list repeat 0 0 0 [] [] 1
    10 10.

Definition sampleSession (rows : list Task) : Session := mkSession rows [] [].

(** The payload [{Done: true}]. *)
Definition donePayload : Task := setDone true emptyTask.




(** *** BulkTask.CanUpdate *)

Section CanUpdate.

(** The principal ([web.Auth]) and [List.CanWrite], which is defined
    elsewhere: it is asked for the list with the given id and answers with a
    flag and an error. *)
Variable A : Type.
Variable CanWrite : Session -> Z -> A -> Session * bool * option Error.

(** [None] stands for the run-time panic of indexing an empty slice with
    [bt.Tasks[0]]. *)
Definition CanUpdate (s : Session) (bt : BulkTask) (a : A)
  : option (Session * BulkTask * bool * option Error) :=
  let '(s1, bt1, err) := checkIfTasksAreOnTheSameList s bt in
  match err with
  | Some e => Some (s1, bt1, false, Some e)
  | None =>
      match Tasks bt1 with
      | [] => None
      | first :: _ =>
          let '(s2, allowed, err2) := CanWrite s1 (ListID first) a in
          Some (s2, bt1, allowed, err2)
      end
  end.

End CanUpdate.

(** *** Vocabulary of the further properties *)

(** The stored row [r'] has the identity of [r] and, unless that identity is
    among [ids], is [r] itself. *)
Definition sameUnless (ids : list Z) (r r' : Task) : Prop :=
  ID r' = ID r /\ (~ In (ID r) ids -> r' = r).

(** The columns the persistence step lists, except [done]. *)
Definition listed (t : Task)
  : string * string * Z * list Z * Z * Z * Z * Z :=
  (Title t, Description t, DueDate t, Reminders t, RepeatAfter t, Priority t,
   StartDate t, EndDate t).

(** A stand-in for [List.CanWrite] used on concrete inputs: the principal
    may write the lists it names. *)
Definition writesLists (s : Session) (listID : Z) (a : list Z)
  : Session * bool * option Error :=
  (s, existsb (Z.eqb listID) a, None).

End Bulk.

(** ** Teams *)

(** Modelled from the spec: [user.User] is declared elsewhere; a user has
    a numeric identity, and the team code reads the user name and writes the
    email. *)
Module user.
Record User : Type := mkUser {
  ID : Z;
  Username : string;
  Email : string
}.
End user.

(** Modelled from the spec: [LinkSharing] is declared elsewhere; a
    link-share principal has a numeric identity and is scoped to one
    list. *)
Record LinkSharing : Type := mkLinkSharing {
  ShareID : Z;
  ShareListID : Z
}.

(** [web.Auth]: the principal is a user or a link share. *)
Inductive Auth : Type :=
| AuthUser (u : user.User)
| AuthLinkSharing (l : LinkSharing).

(** [TeamMember]: the relation between a user and a team. *)
Module TeamMember.
Record t : Type := mk {
  ID : Z;
  TeamID : Z;
  Username : string;
  UserID : Z;
  Admin : bool;
  Created : Z
}.
End TeamMember.

(** [TeamUser]: a user as member of a team. *)
Module TeamUser.
Record t : Type := mk {
  User : user.User;
  Admin : bool;
  TeamID : Z
}.
End TeamUser.

(** Modelled from the spec: [TeamNamespace] and [TeamList] are declared
    elsewhere; each is a relation row that grants a team a right on a
    namespace or on a list. *)
Module TeamNamespace.
Record t : Type := mk {
  ID : Z;
  TeamID : Z;
  NamespaceID : Z;
  Right : Z
}.
End TeamNamespace.

Module TeamList.
Record t : Type := mk {
  ID : Z;
  TeamID : Z;
  ListID : Z;
  Right : Z
}.
End TeamList.

Module Team.

Record t : Type := mk {
  ID : Z;
  Name : string;
  Description : string;
  CreatedByID : Z;
  CreatedBy : option user.User;
  Members : list TeamUser.t;
  Created : Z;
  Updated : Z
}.

(** The columns of a team: [CreatedBy] and [Members] are not stored. *)
Definition stored (team : t) : t :=
  mk (ID team) (Name team) (Description team) (CreatedByID team) None []
     (Created team) (Updated team).

Definition setID (id : Z) (team : t) : t :=
  mk id (Name team) (Description team) (CreatedByID team) (CreatedBy team)
     (Members team) (Created team) (Updated team).

Definition setCreator (id : Z) (u : option user.User) (team : t) : t :=
  mk (ID team) (Name team) (Description team) id u (Members team)
     (Created team) (Updated team).

Definition setCreatedBy (u : option user.User) (team : t) : t :=
  mk (ID team) (Name team) (Description team) (CreatedByID team) u
     (Members team) (Created team) (Updated team).

Definition addMember (m : TeamUser.t) (team : t) : t :=
  mk (ID team) (Name team) (Description team) (CreatedByID team)
     (CreatedBy team) (Members team ++ [m])%list (Created team)
     (Updated team).

(** The zero value [Team{}]. *)
Definition empty : t := mk 0 "" "" 0 None [] 0 0.

(** The session: the relations the team code touches and the failure
    script. What the session holds is committed or rolled back by the
    caller. *)
Record Session : Type := mkSession {
  users : list user.User;
  teams : list t;
  team_members : list TeamMember.t;
  team_namespaces : list TeamNamespace.t;
  team_lists : list TeamList.t;
  faults : list bool
}.

(** The session after one statement was sent, with the relations as
    given. *)
Definition withFaults (s : Session) (rest : list bool) : Session :=
  mkSession (users s) (teams s) (team_members s) (team_namespaces s)
    (team_lists s) rest.

Definition hasID (id : Z) (ids : list Z) : bool := existsb (Z.eqb id) ids.

(** *** addMoreInfoToTeams *)

(** One row of [users LEFT JOIN team_members LEFT JOIN teams]. *)
Definition JoinRow : Type := user.User * option (TeamMember.t * option t).

Definition joinRows (s : Session) : list JoinRow :=
  flat_map
    (fun u =>
       match filter (fun m => TeamMember.UserID m =? user.ID u)
               (team_members s) with
       | [] => [(u, None)]
       | ms =>
           flat_map
             (fun m =>
                match filter (fun team => ID team =? TeamMember.TeamID m)
                        (teams s) with
                | [] => [(u, Some (m, None))]
                | ts => map (fun team => (u, Some (m, Some team))) ts
                end)
             ms
       end)
    (users s).

(** The condition of the query: [team_id IN teamIDs OR (users.id IN ownerIDs
    AND teams.created_by_id = users.id AND teams.id IN teamIDs)]; a
    comparison with a missing side does not hold. *)
Definition memberOrOwner (teamIDs ownerIDs : list Z) (row : JoinRow) : bool :=
  match row with
  | (_, None) => false
  | (u, Some (m, joined)) =>
      hasID (TeamMember.TeamID m) teamIDs
      || match joined with
         | None => false
         | Some team =>
             hasID (user.ID u) ownerIDs
             && (CreatedByID team =? user.ID u)
             && hasID (ID team) teamIDs
         end
  end.

Definition toTeamUser (row : JoinRow) : TeamUser.t :=
  match row with
  | (u, None) => TeamUser.mk u false 0
  | (u, Some (m, _)) =>
      TeamUser.mk u (TeamMember.Admin m) (TeamMember.TeamID m)
  end.

(** [Find(&users)] into a [map[int64]*TeamUser]: the rows are keyed by the
    user id, a later row replaces an earlier one with the same key. The map
    is kept as a list of its entries; iterating it visits them in list
    order. *)
Fixpoint mapPut (k : Z) (v : TeamUser.t) (m : list (Z * TeamUser.t))
  : list (Z * TeamUser.t) :=
  match m with
  | [] => [(k, v)]
  | (k', v') :: rest =>
      if k' =? k then (k, v) :: rest else (k', v') :: mapPut k v rest
  end.

Fixpoint mapGet (k : Z) (m : list (Z * TeamUser.t)) : option TeamUser.t :=
  match m with
  | [] => None
  | (k', v) :: rest => if k' =? k then Some v else mapGet k rest
  end.

Definition findUsers (rows : list JoinRow) : list (Z * TeamUser.t) :=
  fold_left
    (fun m row => mapPut (user.ID (fst row)) (toTeamUser row) m) rows [].

Definition blankEmail (u : TeamUser.t) : TeamUser.t :=
  TeamUser.mk
    (user.mkUser (user.ID (TeamUser.User u)) (user.Username (TeamUser.User u))
       "")
    (TeamUser.Admin u) (TeamUser.TeamID u).

(** [teamMap[id]] is the last team of the slice with that id. The member is
    appended to that team. *)
Fixpoint appendMember (id : Z) (m : TeamUser.t) (ts : list t) : list t :=
  match ts with
  | [] => []
  | team :: rest =>
      if (ID team =? id) && negb (hasID id (map ID rest))
      then addMember m team :: rest
      else team :: appendMember id m rest
  end.

(** The first loop: a user whose team is in [teamMap] has the email blanked
    (in the map entry, which is a pointer) and is appended to the members
    of that team. Returns the map and the teams afterwards. *)
Fixpoint assignMembers (entries : list (Z * TeamUser.t)) (ts : list t)
  : list (Z * TeamUser.t) * list t :=
  match entries with
  | [] => ([], ts)
  | (k, u) :: rest =>
      if hasID (TeamUser.TeamID u) (map ID ts)
      then
        let u' := blankEmail u in
        let '(rest', ts') :=
          assignMembers rest (appendMember (TeamUser.TeamID u) u' ts) in
        ((k, u') :: rest', ts')
      else
        let '(rest', ts') := assignMembers rest ts in
        ((k, u) :: rest', ts')
  end.

(** The second loop, over the teams of [teamMap]: the creator is taken from
    the map of users when it is there. *)
Fixpoint assignOwners (usersMap : list (Z * TeamUser.t)) (ts : list t)
  : list t :=
  match ts with
  | [] => []
  | team :: rest =>
      (if hasID (ID team) (map ID rest) then team
       else
         match mapGet (CreatedByID team) usersMap with
         | Some teamUser => setCreatedBy (Some (TeamUser.User teamUser)) team
         | None => team
         end)
      :: assignOwners usersMap rest
  end.

Definition addMoreInfoToTeams (s : Session) (ts : list t)
  : Session * list t * option Error :=
  let teamIDs := map ID ts in
  let ownerIDs := map CreatedByID ts in
  let '(failed, rest) := nextFault (faults s) in
  if failed then (withFaults s rest, ts, Some ErrDB)
  else
    let usersMap :=
      findUsers (filter (memberOrOwner teamIDs ownerIDs) (joinRows s)) in
    let '(usersMap', ts') := assignMembers usersMap ts in
    (withFaults s rest, assignOwners usersMap' ts', None).

(** *** GetTeamByID and ReadOne *)

(** Returns the session, the team pointer ([None] for [nil]) and the
    error. *)
Definition GetTeamByID (s : Session) (id : Z)
  : Session * option t * option Error :=
  if id <? 1 then (s, None, Some (ErrTeamDoesNotExist id))
  else
    let '(failed, rest) := nextFault (faults s) in
    let s1 := withFaults s rest in
    if failed then (s1, None, Some ErrDB)
    else
      match filter (fun team => ID team =? id) (teams s) with
      | [] => (s1, Some empty, Some (ErrTeamDoesNotExist id))
      | row :: _ =>
          let '(s2, teamSlice, err) := addMoreInfoToTeams s1 [stored row] in
          match err with
          | Some e => (s2, None, Some e)
          | None => (s2, hd_error teamSlice, None)
          end
      end.

Definition ReadOne (s : Session) (team : t) : Session * t * option Error :=
  let '(s', found, err) := GetTeamByID s (ID team) in
  match found with
  | Some team' => (s', team', err)
  | None => (s', team, err)
  end.

(** *** ReadAll *)

(** Modelled from the spec: [getLimitFromPageIndex] is defined elsewhere.
    Pages are 1-based; a page below 1 asks for everything (limit 0),
    otherwise the limit is the page size and the start is the number of
    items on the pages before. *)
Definition getLimitFromPageIndex (page perPage : Z) : Z * Z :=
  if page <? 1 then (0, 0) else (perPage, perPage * (page - 1)).

Definition GetID (a : Auth) : Z :=
  match a with
  | AuthUser u => user.ID u
  | AuthLinkSharing l => ShareID l
  end.

Section ReadAll.

(** [name LIKE pattern] as the database evaluates it. *)
Variable like : string -> string -> bool.

(** [teams INNER JOIN team_members ON team_members.team_id = teams.id WHERE
    team_members.user_id = ? AND teams.name LIKE ?]. *)
Definition teamsOf (s : Session) (userID : Z) (search : string) : list t :=
  flat_map
    (fun team =>
       map (fun _ => stored team)
         (filter
            (fun m =>
               (TeamMember.TeamID m =? ID team)
               && (TeamMember.UserID m =? userID)
               && like (Name team) ("%" ++ search ++ "%")%string)
            (team_members s)))
    (teams s).

Definition applyLimit (limit start : Z) (rows : list t) : list t :=
  if 0 <? limit
  then firstn (Z.to_nat limit) (skipn (Z.to_nat start) rows)
  else rows.

(** Returns the session, the result ([None] for [nil]), the number of
    results, the number of matching teams and the error. *)
Definition ReadAll (s : Session) (a : Auth) (search : string)
  (page perPage : Z) : Session * option (list t) * Z * Z * option Error :=
  match a with
  | AuthLinkSharing _ => (s, None, 0, 0, Some ErrGenericForbidden)
  | AuthUser _ =>
      let '(limit, start) := getLimitFromPageIndex page perPage in
      let '(failed1, rest1) := nextFault (faults s) in
      let s1 := withFaults s rest1 in
      if failed1 then (s1, None, 0, 0, Some ErrDB)
      else
        let all := applyLimit limit start (teamsOf s (GetID a) search) in
        let '(s2, all', err2) := addMoreInfoToTeams s1 all in
        match err2 with
        | Some e => (s2, None, 0, 0, Some e)
        | None =>
            let '(failed3, rest3) := nextFault (faults s2) in
            let s3 := withFaults s2 rest3 in
            if failed3
            then (s3, Some all', Z.of_nat (List.length all'), 0, Some ErrDB)
            else
              (s3, Some all', Z.of_nat (List.length all'),
               Z.of_nat (List.length (teamsOf s (GetID a) search)), None)
        end
  end.

End ReadAll.

(** *** Create *)

(** Modelled from the spec: [user.GetFromAuth] is defined elsewhere; only
    an authenticated user is a user. *)
Definition GetFromAuth (a : Auth) : option user.User * option Error :=
  match a with
  | AuthUser u => (Some u, None)
  | AuthLinkSharing _ => (None, Some ErrNotAUser)
  end.

Definition nextID (ids : list Z) : Z := 1 + fold_right Z.max 0 ids.

(** [s.Insert(t)]: the stored columns are appended to [teams]; the
    autoincrement id is given to the row and to the team in memory. Time is
    outside the model: the timestamps stay as they are. *)
Definition insertTeam (s : Session) (team : t) : Session * t * option Error :=
  let '(failed, rest) := nextFault (faults s) in
  if failed then (withFaults s rest, team, Some ErrDB)
  else
    let team' := setID (nextID (map ID (teams s))) team in
    (mkSession (users s) (teams s ++ [stored team'])%list (team_members s)
       (team_namespaces s) (team_lists s) rest,
     team', None).

(** Modelled from the spec: [TeamMember.Create] is defined elsewhere. A
    member is "resolved by username at the boundary but stored by numeric
    user id": the user is looked up by name, and a row for the team, that
    user id and the admin flag is inserted. *)
Definition TeamMemberCreate (s : Session) (tm : TeamMember.t)
  : Session * TeamMember.t * option Error :=
  let '(failed1, rest1) := nextFault (faults s) in
  let s1 := withFaults s rest1 in
  if failed1 then (s1, tm, Some ErrDB)
  else
    match filter (fun u => String.eqb (user.Username u) (TeamMember.Username tm))
            (users s) with
    | [] => (s1, tm, Some ErrUserDoesNotExist)
    | u :: _ =>
        let '(failed2, rest2) := nextFault (faults s1) in
        if failed2 then (withFaults s1 rest2, tm, Some ErrDB)
        else
          let tm' :=
            TeamMember.mk
              (nextID (map TeamMember.ID (team_members s)))
              (TeamMember.TeamID tm) (TeamMember.Username tm) (user.ID u)
              (TeamMember.Admin tm) (TeamMember.Created tm) in
          (mkSession (users s) (teams s) (team_members s ++ [tm'])%list
             (team_namespaces s) (team_lists s) rest2,
           tm', None)
    end.

(** [Team.Create]. The metrics counter is outside the model. *)
Definition Create (s : Session) (a : Auth) (team : t)
  : Session * t * option Error :=
  match GetFromAuth a with
  | (_, Some e) => (s, team, Some e)
  | (None, None) => (s, team, Some ErrNotAUser)
  | (Some doer, None) =>
      if String.eqb (Name team) "" then (s, team, Some ErrTeamNameCannotBeEmpty)
      else
        let team1 := setCreator (user.ID doer) (Some doer) team in
        let '(s1, team2, err1) := insertTeam s team1 in
        match err1 with
        | Some e => (s1, team2, Some e)
        | None =>
            let tm :=
              TeamMember.mk 0 (ID team2) (user.Username doer) 0 true 0 in
            let '(s2, _, err2) := TeamMemberCreate s1 tm in
            (s2, team2, err2)
        end
  end.

(** *** Delete *)

(** One [DELETE] statement: the relations as [after] says when it
    succeeds. *)
Definition deleteStep (s : Session) (after : Session -> Session)
  : Session * option Error :=
  let '(failed, rest) := nextFault (faults s) in
  if failed then (withFaults s rest, Some ErrDB)
  else (withFaults (after s) rest, None).

Definition deleteTeamRows (id : Z) (s : Session) : Session :=
  mkSession (users s) (filter (fun team => negb (ID team =? id)) (teams s))
    (team_members s) (team_namespaces s) (team_lists s) (faults s).

Definition deleteMemberRows (id : Z) (s : Session) : Session :=
  mkSession (users s) (teams s)
    (filter (fun m => negb (TeamMember.TeamID m =? id)) (team_members s))
    (team_namespaces s) (team_lists s) (faults s).

Definition deleteNamespaceRows (id : Z) (s : Session) : Session :=
  mkSession (users s) (teams s) (team_members s)
    (filter (fun r => negb (TeamNamespace.TeamID r =? id)) (team_namespaces s))
    (team_lists s) (faults s).

Definition deleteListRows (id : Z) (s : Session) : Session :=
  mkSession (users s) (teams s) (team_members s) (team_namespaces s)
    (filter (fun r => negb (TeamList.TeamID r =? id)) (team_lists s))
    (faults s).

(** [Team.Delete]. The metrics counter is outside the model. *)
Definition Delete (s : Session) (team : t) : Session * option Error :=
  let '(s1, err1) := deleteStep s (deleteTeamRows (ID team)) in
  match err1 with
  | Some e => (s1, Some e)
  | None =>
      let '(s2, err2) := deleteStep s1 (deleteMemberRows (ID team)) in
      match err2 with
      | Some e => (s2, Some e)
      | None =>
          let '(s3, err3) := deleteStep s2 (deleteNamespaceRows (ID team)) in
          match err3 with
          | Some e => (s3, Some e)
          | None => deleteStep s3 (deleteListRows (ID team))
          end
      end
  end.

(** Modelled from the spec: the caller of the CRUD methods (the generic
    dispatcher's delete operation) is not part of the sources at hand. It
    runs the method in "a single logical transaction": what the session
    holds is committed when the method returns no error, and "if any
    cascade step fails, nothing is committed". *)
Definition inTransaction (db : Session)
  (op : Session -> Session * option Error) : Session * option Error :=
  let '(s', err) := op db in
  match err with
  | None => (s', None)
  | Some e =>
      (mkSession (users db) (teams db) (team_members db)
         (team_namespaces db) (team_lists db) (faults s'),
       Some e)
  end.

(** *** Vocabulary of the properties *)

(** Sample data: two users, two teams, their members and grants. *)
Definition alice : user.User := user.mkUser 1 "alice" "alice@example.org".
Definition bob : user.User := user.mkUser 2 "bob" "bob@example.org".

Definition ops : Team.t := Team.mk 1 "Ops" "" 1 None [] 10 10.
Definition dev : Team.t := Team.mk 2 "Dev" "" 2 None [] 11 11.

Definition sampleDB (script : list bool) : Session :=
  mkSession [alice; bob] [ops; dev]
    [TeamMember.mk 1 1 "" 1 true 10; TeamMember.mk 2 1 "" 2 false 10;
     TeamMember.mk 3 2 "" 2 true 11]
    [TeamNamespace.mk 1 1 7 0; TeamNamespace.mk 2 2 7 1]
    [TeamList.mk 1 2 3 0; TeamList.mk 2 1 4 2]
    script.

(** The relations of a session, without the failure script. *)
Definition relations (s : Session) :=
  (users s, teams s, team_members s, team_namespaces s, team_lists s).

(** The relations after the whole cascade for team [id]. *)
Definition cascaded (id : Z) (s : Session) :=
  (users s,
   filter (fun team => negb (ID team =? id)) (teams s),
   filter (fun m => negb (TeamMember.TeamID m =? id)) (team_members s),
   filter (fun r => negb (TeamNamespace.TeamID r =? id)) (team_namespaces s),
   filter (fun r => negb (TeamList.TeamID r =? id)) (team_lists s)).




(** The team of a create request. *)
Definition newOps : Team.t := Team.mk 0 "Ops" "" 0 None [] 0 0.

(** Every member listed on the team has an empty email. *)
Definition emailsBlank (team : Team.t) : Prop :=
  Forall (fun m => user.Email (TeamUser.User m) = "") (Members team).

(** *** Update *)

(** [s.ID(id).Update(t)]: the non-empty columns of [t] are written to the
    rows with that id; the id and the creation time are not written. Time is
    outside the model. *)
Definition updateTeam (s : Session) (id : Z) (team : t)
  : Session * option Error :=
  let '(failed, rest) := nextFault (faults s) in
  if failed then (withFaults s rest, Some ErrDB)
  else
    (mkSession (users s)
       (map
          (fun row =>
             if ID row =? id
             then
               mk (ID row)
                 (if String.eqb (Name team) "" then Name row else Name team)
                 (if String.eqb (Description team) "" then Description row
                  else Description team)
                 (if CreatedByID team =? 0 then CreatedByID row
                  else CreatedByID team)
                 (CreatedBy row) (Members row) (Created row) (Updated row)
             else row)
          (teams s))
       (team_members s) (team_namespaces s) (team_lists s) rest,
     None).

(** [Team.Update]: returns the session, the receiver afterwards and the
    error. *)
Definition Update (s : Session) (team : t) : Session * t * option Error :=
  if String.eqb (Name team) "" then (s, team, Some ErrTeamNameCannotBeEmpty)
  else
    let '(s1, _, err1) := GetTeamByID s (ID team) in
    match err1 with
    | Some e => (s1, team, Some e)
    | None =>
        let '(s2, err2) := updateTeam s1 (ID team) team in
        match err2 with
        | Some e => (s2, team, Some e)
        | None =>
            let '(s3, found, err3) := GetTeamByID s2 (ID team) in
            match found with
            | Some team' => (s3, team', err3)
            | None => (s3, team, err3)
            end
        end
    end.

(** *** Vocabulary of the further properties *)

(** A user with the email taken out. *)
Definition withoutEmail (u : user.User) : user.User :=
  user.mkUser (user.ID u) (user.Username u) "".

(** [m] lists a stored user who has a member row in the team with id
    [teamID], with the admin flag of that row and without the email. *)
Definition isMembership (s : Session) (teamID : Z) (m : TeamUser.t) : Prop :=
  exists u row,
    In u (users s) /\ In row (team_members s)
    /\ TeamMember.UserID row = user.ID u
    /\ TeamMember.TeamID row = teamID
    /\ m = TeamUser.mk (withoutEmail u) (TeamMember.Admin row) teamID.

(** The ids of the users listed as members of the teams. *)
Definition listedUserIDs (ts : list t) : list Z :=
  map (fun m => user.ID (TeamUser.User m)) (flat_map Members ts).

(** The states a session can be in when [Delete] for team [id] has stopped
    at a failing statement: the deletions of the statements before it. *)
Definition deletedSoFar (id : Z) (s : Session) :=
  [relations s;
   relations (deleteTeamRows id s);
   relations (deleteMemberRows id (deleteTeamRows id s));
   relations
     (deleteNamespaceRows id (deleteMemberRows id (deleteTeamRows id s)))].

(** Every entry of the map comes from a row and is filed under the id of
    the user of that row. *)
Definition fromRows (rows : list JoinRow) (m : list (Z * TeamUser.t)) : Prop :=
  forall k v, In (k, v) m ->
    exists row, In row rows /\ k = user.ID (fst row) /\ v = toTeamUser row.

(** The entries whose team is among the teams. *)
Definition chosen (ts : list Team.t) (entries : list (Z * TeamUser.t))
  : list (Z * TeamUser.t) :=
  filter (fun e => hasID (TeamUser.TeamID (snd e)) (map ID ts)) entries.

End Team.

(** ** The generic read-all handler *)

Module Handler.

(** *** strconv.Atoi *)

Definition isDigit (c : ascii) : bool :=
  (48 <=? Z.of_nat (nat_of_ascii c)) && (Z.of_nat (nat_of_ascii c) <=? 57).

(** The value of a run of decimal digits, [None] when a byte is not a
    digit. *)
Fixpoint digitsValue (s : string) (acc : Z) : option Z :=
  match s with
  | EmptyString => Some acc
  | String c rest =>
      if isDigit c
      then digitsValue rest (acc * 10 + (Z.of_nat (nat_of_ascii c) - 48))
      else None
  end.

(** An optional sign, then at least one digit and only digits; the value
    must fit a 64-bit [int]. [None] stands for a non-nil error. *)
Definition Atoi (s : string) : option Z :=
  match s with
  | EmptyString => None
  | String c rest =>
      let negative := Ascii.eqb c "-" in
      let body := if negative || Ascii.eqb c "+" then rest else s in
      match body with
      | EmptyString => None
      | _ =>
          match digitsValue body 0 with
          | None => None
          | Some n =>
              let v := if negative then - n else n in
              if (- 2 ^ 63 <=? v) && (v <=? 2 ^ 63 - 1) then Some v else None
          end
      end
  end.

(** *** float64 *)

Definition float64 : Type := spec_float.

(** The conversion [float64(n)] of an integer, rounding to nearest even. *)
Definition toFloat64 (n : Z) : float64 := binary_normalize 53 1024 n 0 false.

(** [math.Ceil]: the least integral value not below [x]; zeros, infinities
    and NaN are returned as they are, and a negative [x] above [-1] gives
    [-0]. *)
Definition Ceil (x : float64) : float64 :=
  match x with
  | S754_finite s m e =>
      if 0 <=? e then x
      else
        let unit := 2 ^ (- e) in
        let c :=
          if s then - (Zpos m / unit) else (Zpos m + unit - 1) / unit in
        if c =? 0 then S754_zero s else binary_normalize 53 1024 c 0 s
  | _ => x
  end.

(** The integer nearest to [m / 2^k], ties to even. *)
Definition roundHalfEven (m k : Z) : Z :=
  let q := m / 2 ^ k in
  let r := m mod 2 ^ k in
  match 2 * r ?= 2 ^ k with
  | Lt => q
  | Eq => if Z.even q then q else q + 1
  | Gt => q + 1
  end.

(** The decimal digits of a natural number. *)
Definition decimal (n : Z) : string :=
  NilZero.string_of_uint (N.to_uint (Z.to_N n)).

(** [strconv.FormatInt(n, 10)]. *)
Definition FormatInt (n : Z) : string :=
  if n <? 0 then String.append "-" (decimal (- n)) else decimal n.

(** [strconv.FormatFloat(x, 'f', 0, 64)]: the value rounded to an integer,
    in decimal, with a minus sign when the sign bit is set. *)
Definition FormatFloat (x : float64) : string :=
  match x with
  | S754_nan => "NaN"
  | S754_infinity s => if s then "-Inf" else "+Inf"
  | S754_zero s => if s then "-0" else "0"
  | S754_finite s m e =>
      String.append (if s then "-" else "")
        (decimal (if 0 <=? e then Zpos m * 2 ^ e
                  else roundHalfEven (Zpos m) (- e)))
  end.

(** *** ReadAllWeb *)

Record HTTPError : Type := NewHTTPError {
  Code : Z;
  Message : string
}.

(** What the handler sends: an error, or status 200 with the two pagination
    headers and the result as body. *)
Inductive Response (R : Type) : Type :=
| Failed (e : HTTPError)
| JSON (totalPages resultCount : string) (result : R).
Arguments Failed {R} e.
Arguments JSON {R} totalPages resultCount result.

(** Modelled from the spec: [HandleHTTPError] is defined elsewhere; it maps
    the error of a CRUD method to its transport status. *)
Definition HandleHTTPError (err : Error) : HTTPError :=
  NewHTTPError (HTTPStatus err) "".

(** The [page] query parameter. *)
Definition parsePage (page : string) : HTTPError + Z :=
  let page := if String.eqb page "" then "1" else page in
  match Atoi page with
  | None => inl (NewHTTPError 400 "Bad page requested.")
  | Some pageNumber =>
      if pageNumber <? 0
      then inl (NewHTTPError 400 "Page number cannot be negative.")
      else inr pageNumber
  end.

(** The [per_page] query parameter, with [config.MaxItemsPerPage]. *)
Definition parsePerPage (MaxItemsPerPage : Z) (perPage : string)
  : HTTPError + Z :=
  match (if String.eqb perPage "" then Some 0 else Atoi perPage) with
  | None => inl (NewHTTPError 400 "Bad per page amount requested.")
  | Some parsed =>
      let perPageNumber :=
        if parsed =? 0 then MaxItemsPerPage else parsed in
      if perPageNumber <? 1
      then inl (NewHTTPError 400 "Per page amount cannot be negative.")
      else
        inr (if MaxItemsPerPage <? perPageNumber then MaxItemsPerPage
             else perPageNumber)
  end.

(** The number of pages computed from the number of items. *)
Definition numberOfPages (numberOfItems perPageNumber pageNumber
                          resultCount : Z) : float64 :=
  let pages :=
    Ceil (SFdiv 53 1024 (toFloat64 numberOfItems) (toFloat64 perPageNumber)) in
  let pages := if pageNumber <? 0 then toFloat64 1 else pages in
  if resultCount =? 0 then toFloat64 0 else pages.

Section ReadAllWeb.

(** The principal, the result type and [currentStruct.ReadAll] (principal,
    search, page, items per page), which returns the result, the number of
    results, the number of items and an error. *)
Variables (A R : Type).
Variable ReadAll : A -> string -> Z -> Z -> R * Z * Z * option Error.

(** The part of the handler after the parameters are read. *)
Definition respond (currentAuth : A) (search : string)
  (pageNumber perPageNumber : Z) : Response R :=
  let '(result, resultCount, numberOfItems, err) :=
    ReadAll currentAuth search pageNumber perPageNumber in
  match err with
  | Some e => Failed (HandleHTTPError e)
  | None =>
      JSON
        (FormatFloat
           (numberOfPages numberOfItems perPageNumber pageNumber resultCount))
        (FormatInt resultCount)
        result
  end.

(** [auth] is the outcome of the auth provider and [bound] that of binding
    the request, [page], [perPage] and [search] are the query parameters
    [page], [per_page] and [s]. *)
Definition ReadAllWeb (MaxItemsPerPage : Z) (auth : option A) (bound : bool)
  (page perPage search : string) : Response R :=
  match auth with
  | None =>
      Failed (NewHTTPError 500 "Could not determine the current user.")
  | Some currentAuth =>
      if negb bound
      then Failed (NewHTTPError 400 "No or invalid model provided.")
      else
        match parsePage page with
        | inl e => Failed e
        | inr pageNumber =>
            match parsePerPage MaxItemsPerPage perPage with
            | inl e => Failed e
            | inr perPageNumber =>
                respond currentAuth search pageNumber perPageNumber
            end
        end
  end.

End ReadAllWeb.

(** *** Vocabulary of the properties *)

(** The claim on the page number as the specification words it: a page
    below 1 is refused with a 400. *)
Definition pageBelowOneIsRejected : Prop :=
  forall page p, Atoi page = Some p -> p < 1 ->
    exists e, parsePage page = inl e /\ Code e = 400.

(** The float for mantissa [M] (of 53 bits, or [2^53]) and exponent [e]. *)
Definition renorm (s : bool) (M e : Z) : spec_float :=
  match M with
  | Zpos m =>
      if M <? 2 ^ 53 then S754_finite s m e
      else S754_finite s 4503599627370496 (e + 1)
  | _ => S754_nan
  end.

(** The location after one more bit is shifted out of [q]. *)
Definition shiftedLoc (q : Z) (l : location) : location :=
  loc_of_shr_record (shr_1 (shr_record_of_loc q l)).

(** [x] is the normal float of mantissa [m] and exponent [e] for the
    integer [n]. *)
Definition normalOf (n : Z) (m : positive) (e : Z) : Prop :=
  Zpos (digits2_pos m) = 53 /\ -52 <= e <= 0 /\ Zpos m = n * 2 ^ (- e).

(** [M] is the integer nearest to [A / B] as far as the page count needs
    it: between the floor and the floor plus one, the quotient itself when
    the division is exact, and the floor plus one when the remainder is
    more than half of [B]. *)
Definition nearest (A B M : Z) : Prop :=
  A / B <= M <= A / B + 1
  /\ (A mod B = 0 -> M = A / B)
  /\ (B < 2 * (A mod B) -> M = A / B + 1).

(** [ceil(a / b)] for a positive [b]. *)
Definition ceilDiv (a b : Z) : Z := (a + b - 1) / b.

(** The page count the specification describes. *)
Definition expectedPages (numberOfItems perPageNumber pageNumber
                          resultCount : Z) : Z :=
  if resultCount =? 0 then 0
  else if pageNumber <? 0 then 1
  else ceilDiv numberOfItems perPageNumber.

(** The claim as the specification words it, for every item count. *)
Definition pageCountClaim : Prop :=
  forall numberOfItems perPageNumber pageNumber resultCount,
    0 <= numberOfItems -> 1 <= perPageNumber ->
    FormatFloat
      (numberOfPages numberOfItems perPageNumber pageNumber resultCount)
    = decimal
        (expectedPages numberOfItems perPageNumber pageNumber resultCount).

(** *** Vocabulary of the further properties *)

(** [GET /teams] is served by [ReadAllWeb] for [Team]. The handler calls
    [ReadAll] without a session, [Team.ReadAll] takes one: here it runs on
    the session [s], and the session it leaves is dropped. *)
Definition teamsReadAll (like : string -> string -> bool) (s : Team.Session)
  (a : Auth) (search : string) (page perPage : Z)
  : option (list Team.t) * Z * Z * option Error :=
  let '(_, result, resultCount, numberOfItems, err) :=
    Team.ReadAll like s a search page perPage in
  (result, resultCount, numberOfItems, err).

End Handler.

(** * Properties of the bulk task update *)

Module BulkFacts.
Import Bulk.


Lemma updateDone_payload o p : payloadLater p (snd (updateDone o p)).
Proof.
  unfold updateDone.
  destruct ((0 <? RepeatAfter o) && Done p); [now right | now left].
Qed.


Lemma payloadLater_ID p p' : payloadLater p p' -> ID p' = ID p.
Proof. now intros [-> | ->]. Qed.


Lemma updateDone_not_done o p :
  Done p = false -> updateDone o p = (o, p).
Proof.
  intros H. unfold updateDone. rewrite H.
  now rewrite andb_false_r.
Qed.




Lemma updateDone_ID o p : ID (fst (updateDone o p)) = ID o.
Proof.
  unfold updateDone.
  now destruct ((0 <? RepeatAfter o) && Done p).
Qed.

Lemma mergePayload_ID o p : ID (mergePayload o p) = overZ (ID o) (ID p).
Proof. unfold mergePayload. now destruct (negb (Done p)). Qed.

Lemma mergePayload_not_done o p :
  Done p = false -> Done (mergePayload o p) = false.
Proof. intros H. unfold mergePayload. now rewrite H. Qed.

(** *** The statements of the session *)

Lemma updateCols_tasks s id src s' e :
  updateCols s id src = (s', e) ->
  (e = None /\
   tasks s' =
   map (fun row => if ID row =? id then writeCols row src else row) (tasks s))
  \/ (e = Some ErrDB /\ tasks s' = tasks s).
Proof.
  unfold updateCols. destruct (nextFault (faults s)) as [failed rest].
  destruct failed; intros H; inversion H; subst; simpl; auto.
Qed.

Lemma updateTaskAssignees_tasks step s t a s' t' e :
  updateTaskAssignees step s t a = (s', t', e) ->
  tasks s' = tasks s /\ exists mem, t' = setAssignees mem t.
Proof.
  unfold updateTaskAssignees.
  destruct (step (task_assignees s) (faults s) t a) as [[[rel rest] mem] err].
  intros H. inversion H; subst. simpl. eauto.
Qed.

(** One iteration, as far as the stored tasks are concerned. *)
Lemma updateLoop_cons step s p t rest s' p' ts' :
  updateLoop step s p (t :: rest) = (s', p', ts', None) ->
  exists s2 mem,
    let old1 := fst (updateDone t p) in
    let p1 := snd (updateDone t p) in
    let old3 := mergePayload (setAssignees mem old1) p1 in
    tasks s2 =
      map (fun row => if ID row =? ID old3 then writeCols row old3 else row)
        (tasks s)
    /\ exists rest', updateLoop step s2 p1 rest = (s', p', rest', None).
Proof.
  simpl. destruct (updateDone t p) as [old1 p1]. simpl.
  destruct (updateTaskAssignees step s old1 (Assignees p1))
    as [[s1 old2] err1] eqn:E1.
  apply updateTaskAssignees_tasks in E1. destruct E1 as [T1 [mem ->]].
  destruct err1; [discriminate |].
  destruct (updateCols s1 _ _) as [s2 err2] eqn:E2.
  apply updateCols_tasks in E2.
  destruct err2; [discriminate |].
  destruct E2 as [[_ T2] | [? _]]; [| discriminate].
  destruct (updateLoop step s2 p1 rest) as [[[s3 p3] rest3] err3] eqn:E3.
  intros H. inversion H; subst.
  exists s2, mem. split; [now rewrite T2, T1 | eauto].
Qed.

Lemma updateLoop_app step pre : forall s p post s' p' ts',
  updateLoop step s p (pre ++ post) = (s', p', ts', None) ->
  exists s1 p1 pre' post',
    updateLoop step s p pre = (s1, p1, pre', None)
    /\ updateLoop step s1 p1 post = (s', p', post', None).
Proof.
  induction pre as [| t pre IH]; intros s p post s' p' ts' H.
  - simpl in *. exists s, p, [], ts'. split; [reflexivity | exact H].
  - simpl in H |- *. destruct (updateDone t p) as [old1 q].
    destruct (updateTaskAssignees step s old1 (Assignees q))
      as [[s1 old2] err1].
    destruct err1; [discriminate |].
    destruct (updateCols s1 _ _) as [s2 err2].
    destruct err2; [discriminate |].
    destruct (updateLoop step s2 q (pre ++ post))
      as [[[s3 p3] rest3] err3] eqn:E3.
    destruct err3; [discriminate |].
    apply IH in E3. destruct E3 as (sa & pa & pre' & post' & Ha & Hb).
    rewrite Ha. inversion H; subst. eauto 10.
Qed.

(** *** What a run does to the stored rows *)

Lemma in_map_written (rows : list Task) id src r' :
  In r' (map (fun row => if ID row =? id then writeCols row src else row) rows) ->
  (exists row, In row rows /\ ID row = id /\ r' = writeCols row src)
  \/ (In r' rows /\ ID r' <> id).
Proof.
  rewrite in_map_iff. intros [row [E Hin]].
  destruct (Z.eqb_spec (ID row) id); subst; eauto.
Qed.




Lemma updateLoop_untouched step x ts : forall s p s' p' ts',
  ID p = 0 -> ~ In x (map ID ts) ->
  updateLoop step s p ts = (s', p', ts', None) ->
  forall r', In r' (tasks s') -> ID r' = x -> In r' (tasks s).
Proof.
  induction ts as [| t ts IH]; intros s p s' p' ts' Hp Hx H r' Hin Hid.
  - now inversion H; subst.
  - apply updateLoop_cons in H. destruct H as (s2 & mem & T2 & rest' & H).
    assert (Hq : ID (snd (updateDone t p)) = 0)
      by now rewrite (payloadLater_ID _ _ (updateDone_payload t p)).
    eapply IH in H; eauto.
    + rewrite T2 in H. apply in_map_written in H.
      destruct H as [(row & _ & E & ->) | [H _]]; [| exact H].
      exfalso. apply Hx. left. simpl in Hid. rewrite <- Hid, E.
      rewrite mergePayload_ID. simpl. rewrite Hq, updateDone_ID.
      reflexivity.
    + intros C. apply Hx. now right.
Qed.


Lemma writeCols_unlisted row src : unlisted (writeCols row src) = unlisted row.
Proof. reflexivity. Qed.

Lemma updateCols_unlisted s id src :
  map unlisted (tasks (fst (updateCols s id src))) = map unlisted (tasks s).
Proof.
  destruct (updateCols s id src) as [s' e] eqn:E.
  apply updateCols_tasks in E. simpl.
  destruct E as [[_ ->] | [_ ->]]; [| reflexivity].
  rewrite map_map. apply map_ext. intros row.
  destruct (ID row =? id); [apply writeCols_unlisted | reflexivity].
Qed.

Lemma updateLoop_unlisted step ts : forall s p,
  map unlisted (tasks (fst (fst (fst (updateLoop step s p ts)))))
  = map unlisted (tasks s).
Proof.
  induction ts as [| t ts IH]; intros s p; [reflexivity |].
  simpl. destruct (updateDone t p) as [old1 p1].
  destruct (updateTaskAssignees step s old1 (Assignees p1))
    as [[s1 old2] err1] eqn:E1.
  apply updateTaskAssignees_tasks in E1. destruct E1 as [T1 _].
  destruct err1; [simpl; now rewrite T1 |].
  pose proof (updateCols_unlisted s1 (ID (mergePayload old2 p1))
                (mergePayload old2 p1)) as U.
  destruct (updateCols s1 _ _) as [s2 err2]. simpl in U.
  destruct err2; [simpl; now rewrite U, T1 |].
  specialize (IH s2 p1).
  destruct (updateLoop step s2 p1 ts) as [[[s3 p3] rest3] err3].
  simpl in *. now rewrite IH, U, T1.
Qed.



Lemma Update_loop step s bt s' bt' e :
  Update step s bt = (s', bt', e) ->
  updateLoop step s (Payload bt) (Tasks bt)
  = (s', Payload bt', Tasks bt', e).
Proof.
  unfold Update.
  destruct (updateLoop step s (Payload bt) (Tasks bt)) as [[[a b] c] d].
  intros H. now inversion H.
Qed.

(** ** C2: an explicit [Done = false] in the payload is honoured *)



(** A payload that carries an id: the merge puts that id over the target's,
    and the persistence step writes the row with that id. *)
Example payload_id_names_the_written_row :
  let a := sampleTask 1 5 0 100 true in
  let b := sampleTask 7 5 0 200 true in
  let payload := mkTask 7 "" "" false 0 [] 0 0 0 0 0 [] [] 0 0 0 in
  fst (fst (Update replaceAssignees (sampleSession [a; b])
              (mkBulkTask [1] [a] payload)))
  = sampleSession
      [a; mkTask 7 "water plants" "" false 100 [40] 5 0 0 0 0 [] [] 1 10 10].
Proof. reflexivity. Qed.

(** ** C1: completing a repeating task *)




(** Two runs on which the dates are not advanced. In the first the payload
    also supplies a due date, which the merge puts over the advanced one. In
    the second two repeating tasks are updated at once: completing the first
    takes the done mark off the shared payload, and the second is stored as
    it was. *)
Lemma recurrence_runs :
  (let t := sampleTask 1 5 60 100 false in
   let payload := mkTask 0 "" "" true 500 [] 0 0 0 0 0 [] [] 0 0 0 in
   Update replaceAssignees (sampleSession [t]) (mkBulkTask [1] [t] payload)
   = (sampleSession
        [mkTask 1 "water plants" "" false 500 [100] 5 60 0 60 60 [] [] 1 10
           10],
      mkBulkTask [1]
        [mkTask 1 "water plants" "" false 500 [100] 5 60 0 60 60 [] [] 1 10
           10]
        (setDone false payload),
      None))
  /\
  (let a := sampleTask 1 5 60 100 false in
   let b := sampleTask 2 5 60 200 false in
   Update replaceAssignees (sampleSession [a; b])
     (mkBulkTask [1; 2] [a; b] donePayload)
   = (sampleSession [advanceDates 60 a; b],
      mkBulkTask [1; 2] [advanceDates 60 a; b] emptyTask,
      None)).
Proof. split; reflexivity. Qed.


(** ** C9: the persistence step leaves the unlisted columns alone *)

(** A run whose payload names another list: the target in memory is moved
    to list 9 by the merge, the stored row stays on list 5. *)
Example merged_list_is_not_stored :
  let t := sampleTask 1 5 0 100 false in
  let payload := mkTask 0 "mow lawn" "" false 0 [] 9 0 0 0 0 [] [] 0 0 0 in
  Update replaceAssignees (sampleSession [t]) (mkBulkTask [1] [t] payload)
  = (sampleSession
       [mkTask 1 "mow lawn" "" false 100 [40] 5 0 0 0 0 [] [] 1 10 10],
     mkBulkTask [1]
       [mkTask 1 "mow lawn" "" false 100 [40] 9 0 0 0 0 [] [] 1 10 10]
       payload,
     None).
Proof. reflexivity. Qed.

(** C9. Whatever a bulk update does and however it ends, every stored task
    keeps the columns that are not in the column list of the persistence
    step (identity, list, creator, timestamps): row by row they are what
    they were before. A written row takes exactly the listed columns from
    the merged task ([writeCols]). *)
Theorem update_writes_listed_columns_only
  (step : AssigneeStep) (s : Session) (bt : BulkTask) :
  map unlisted (tasks (fst (fst (Update step s bt)))) = map unlisted (tasks s)
  /\ forall row src,
       unlisted (writeCols row src) = unlisted row
       /\ (Title (writeCols row src), Description (writeCols row src),
           Done (writeCols row src), DueDate (writeCols row src),
           Reminders (writeCols row src), RepeatAfter (writeCols row src),
           Priority (writeCols row src), StartDate (writeCols row src),
           EndDate (writeCols row src))
          = (Title src, Description src, Done src, DueDate src,
             Reminders src, RepeatAfter src, Priority src, StartDate src,
             EndDate src).
Proof.
  split.
  - pose proof (updateLoop_unlisted step (Tasks bt) s (Payload bt)) as U.
    unfold Update.
    destruct (updateLoop step s (Payload bt) (Tasks bt)) as [[[a b] c] d].
    exact U.
  - intros row src. split; reflexivity.
Qed.

(** ** C5: all targets must be on one list *)

Lemma firstOtherList_None a ts :
  firstOtherList a ts = None <-> Forall (fun t => ListID t = a) ts.
Proof.
  induction ts as [| t ts IH]; simpl.
  - split; [constructor | reflexivity].
  - destruct (Z.eqb_spec (ListID t) a) as [E | N].
    + rewrite IH. split; intros H.
      * now constructor.
      * now inversion H.
    + split; [discriminate |]. intros H. inversion H. contradiction.
Qed.

Lemma firstOtherList_Some a ts b :
  firstOtherList a ts = Some b ->
  b <> a /\ exists t, In t ts /\ ListID t = b.
Proof.
  induction ts as [| t ts IH]; simpl; [discriminate |].
  destruct (Z.eqb_spec (ListID t) a) as [E | N].
  - intros H. destruct (IH H) as [Hb [u [Hin Hu]]]. eauto.
  - intros H. inversion H; subst. eauto.
Qed.

Lemma GetTasksByIDs_reads s bt s1 bt1 e :
  GetTasksByIDs s bt = (s1, bt1, e) ->
  tasks s1 = tasks s /\ task_assignees s1 = task_assignees s.
Proof.
  unfold GetTasksByIDs. destruct (nextFault (faults s)) as [failed rest].
  destruct failed; intros H; inversion H; subst; auto.
Qed.

(** C5. Once the targets are resolved, the check reads only: the stored
    tasks and assignees are what they were. If two targets are on different
    lists it fails with [ErrBulkTasksMustBeInSameList a b] (a 400), where [a]
    is the list of the first target, [b] the list of another target and
    [a <> b]. If there is at least one target and all are on one list, it
    passes. *)
Theorem same_list_check
  (s s1 : Session) (bt bt1 : BulkTask) :
  GetTasksByIDs s bt = (s1, bt1, None) ->
  (tasks s1 = tasks s /\ task_assignees s1 = task_assignees s)
  /\ ((exists t1 t2, In t1 (Tasks bt1) /\ In t2 (Tasks bt1)
                     /\ ListID t1 <> ListID t2) ->
      exists a b,
        checkIfTasksAreOnTheSameList s bt
        = (s1, bt1, Some (ErrBulkTasksMustBeInSameList a b))
        /\ a <> b
        /\ hd_error (map ListID (Tasks bt1)) = Some a
        /\ In b (map ListID (Tasks bt1))
        /\ HTTPStatus (ErrBulkTasksMustBeInSameList a b) = 400)
  /\ (Tasks bt1 <> [] ->
      (forall t1 t2, In t1 (Tasks bt1) -> In t2 (Tasks bt1) ->
                     ListID t1 = ListID t2) ->
      checkIfTasksAreOnTheSameList s bt = (s1, bt1, None)).
Proof.
  intros G. split; [eapply GetTasksByIDs_reads; eauto | split].
  - intros (t1 & t2 & H1 & H2 & Hne).
    unfold checkIfTasksAreOnTheSameList. rewrite G.
    destruct (Tasks bt1) as [| first rest] eqn:E; [contradiction |].
    destruct (firstOtherList (ListID first) (first :: rest)) as [b |] eqn:F.
    + apply firstOtherList_Some in F. destruct F as [Hb (u & Hu & <-)].
      exists (ListID first), (ListID u).
      repeat split; auto. now apply in_map.
    + exfalso. apply firstOtherList_None in F. rewrite Forall_forall in F.
      apply Hne. now rewrite (F t1 H1), (F t2 H2).
  - intros Hne Hall.
    unfold checkIfTasksAreOnTheSameList. rewrite G.
    destruct (Tasks bt1) as [| first rest] eqn:E; [contradiction |].
    destruct (firstOtherList (ListID first) (first :: rest)) as [b |] eqn:F;
      [| reflexivity].
    apply firstOtherList_Some in F. destruct F as [Hb (u & Hu & <-)].
    exfalso. apply Hb. apply Hall; [exact Hu | now left].
Qed.

Lemma same_list_check_witness :
  checkIfTasksAreOnTheSameList
    (sampleSession [sampleTask 1 5 0 100 false; sampleTask 2 5 0 200 false])
    (mkBulkTask [1; 2] [] emptyTask)
  = (sampleSession [sampleTask 1 5 0 100 false; sampleTask 2 5 0 200 false],
     mkBulkTask [1; 2]
       [sampleTask 1 5 0 100 false; sampleTask 2 5 0 200 false] emptyTask,
     None).
Proof.
  refine (proj2 (proj2
            (same_list_check
               (sampleSession
                  [sampleTask 1 5 0 100 false; sampleTask 2 5 0 200 false])
               (sampleSession
                  [sampleTask 1 5 0 100 false; sampleTask 2 5 0 200 false])
               (mkBulkTask [1; 2] [] emptyTask)
               (mkBulkTask [1; 2]
                  [sampleTask 1 5 0 100 false; sampleTask 2 5 0 200 false]
                  emptyTask)
               eq_refl)) _ _).
  - discriminate.
  - intros t1 t2 [<- | [<- | []]] [<- | [<- | []]]; reflexivity.
Defined.

(** On targets of two lists the check names both lists. *)
Example same_list_check_two_lists :
  checkIfTasksAreOnTheSameList
    (sampleSession [sampleTask 1 5 0 100 false; sampleTask 2 7 0 200 false])
    (mkBulkTask [1; 2] [] emptyTask)
  = (sampleSession [sampleTask 1 5 0 100 false; sampleTask 2 7 0 200 false],
     mkBulkTask [1; 2]
       [sampleTask 1 5 0 100 false; sampleTask 2 7 0 200 false] emptyTask,
     Some (ErrBulkTasksMustBeInSameList 5 7)).
Proof. reflexivity. Qed.

(** ** Further properties of the bulk update *)

(** *** The check and the authorisation *)

(** X1. Once the targets are resolved: with no target the check fails with
    [ErrBulkTasksNeedAtLeastOne] (a 400); and whenever the check passes
    there is a first target and every target is on the list of the first
    one. *)
Theorem check_passes_only_on_one_list
  (s s1 : Session) (bt bt1 : BulkTask) :
  GetTasksByIDs s bt = (s1, bt1, None) ->
  (Tasks bt1 = [] ->
   checkIfTasksAreOnTheSameList s bt
   = (s1, bt1, Some ErrBulkTasksNeedAtLeastOne)
   /\ HTTPStatus ErrBulkTasksNeedAtLeastOne = 400)
  /\ (forall s' bt',
        checkIfTasksAreOnTheSameList s bt = (s', bt', None) ->
        s' = s1 /\ bt' = bt1
        /\ exists first rest,
             Tasks bt1 = first :: rest
             /\ Forall (fun t => ListID t = ListID first) (Tasks bt1)).
Proof.
  intros G. unfold checkIfTasksAreOnTheSameList. rewrite G. split.
  - intros ->. split; reflexivity.
  - intros s' bt'. destruct (Tasks bt1) as [| first rest] eqn:E;
      [discriminate |].
    destruct (firstOtherList (ListID first) (first :: rest)) eqn:F;
      [discriminate |].
    intros H. inversion H; subst. repeat split.
    exists first, rest. split; [reflexivity |].
    now apply firstOtherList_None.
Qed.

Lemma check_passes_only_on_one_list_witness :
  checkIfTasksAreOnTheSameList (sampleSession [sampleTask 1 5 0 100 false])
    (mkBulkTask [2] [] emptyTask)
  = (sampleSession [sampleTask 1 5 0 100 false], mkBulkTask [2] [] emptyTask,
     Some ErrBulkTasksNeedAtLeastOne).
Proof.
  exact (proj1 (proj1 (check_passes_only_on_one_list
                         (sampleSession [sampleTask 1 5 0 100 false])
                         (sampleSession [sampleTask 1 5 0 100 false])
                         (mkBulkTask [2] [] emptyTask)
                         (mkBulkTask [2] [] emptyTask) eq_refl) eq_refl)).
Defined.

(** X2. [CanUpdate] never indexes an empty slice. When the check fails it
    answers [false] with the error of the check and does not ask
    [List.CanWrite]. Otherwise its answer is the answer of [List.CanWrite]
    for one list, the list every target is on: an answer [true] always comes
    from [List.CanWrite] for that list. *)
Theorem CanUpdate_asks_for_the_shared_list
  (A : Type) (CanWrite : Session -> Z -> A -> Session * bool * option Error)
  (s : Session) (bt : BulkTask) (a : A) :
  CanUpdate A CanWrite s bt a <> None
  /\ (forall s1 bt1 e,
        checkIfTasksAreOnTheSameList s bt = (s1, bt1, Some e) ->
        CanUpdate A CanWrite s bt a = Some (s1, bt1, false, Some e))
  /\ (forall s' bt' err,
        CanUpdate A CanWrite s bt a = Some (s', bt', true, err) ->
        exists s1 l,
          checkIfTasksAreOnTheSameList s bt = (s1, bt', None)
          /\ Tasks bt' <> []
          /\ Forall (fun t => ListID t = l) (Tasks bt')
          /\ CanWrite s1 l a = (s', true, err)).
Proof.
  unfold CanUpdate.
  destruct (checkIfTasksAreOnTheSameList s bt) as [[s1 bt1] err] eqn:C.
  assert (P : err = None ->
              exists first rest,
                Tasks bt1 = first :: rest
                /\ Forall (fun t => ListID t = ListID first) (Tasks bt1)).
  { intros ->. revert C. unfold checkIfTasksAreOnTheSameList.
    destruct (GetTasksByIDs s bt) as [[s0 bt0] e0].
    destruct e0; [discriminate |].
    destruct (Tasks bt0) as [| first rest] eqn:E; [discriminate |].
    destruct (firstOtherList (ListID first) (first :: rest)) eqn:F;
      [discriminate |].
    intros H. inversion H; subst. exists first, rest.
    split; [exact E |]. rewrite E. now apply firstOtherList_None. }
  split; [| split].
  - destruct err; [discriminate |].
    destruct (P eq_refl) as (first & rest & -> & _).
    destruct (CanWrite s1 (ListID first) a) as [[s2 ok] e2]. discriminate.
  - intros s1' bt1' e H. now inversion H; subst.
  - intros s' bt' err'. destruct err; [discriminate |].
    destruct (P eq_refl) as (first & rest & E & F). rewrite E.
    destruct (CanWrite s1 (ListID first) a) as [[s2 ok] e2] eqn:W.
    intros H. inversion H; subst.
    exists s1, (ListID first). rewrite E in *. repeat split; auto.
    discriminate.
Qed.

Lemma CanUpdate_asks_for_the_shared_list_witness :
  exists s1 l,
    checkIfTasksAreOnTheSameList
      (sampleSession [sampleTask 1 5 0 100 false; sampleTask 2 5 0 200 false])
      (mkBulkTask [1; 2] [] emptyTask)
    = (s1,
       mkBulkTask [1; 2]
         [sampleTask 1 5 0 100 false; sampleTask 2 5 0 200 false] emptyTask,
       None)
    /\ Tasks
         (mkBulkTask [1; 2]
            [sampleTask 1 5 0 100 false; sampleTask 2 5 0 200 false]
            emptyTask) <> []
    /\ Forall (fun t => ListID t = l)
         (Tasks
            (mkBulkTask [1; 2]
               [sampleTask 1 5 0 100 false; sampleTask 2 5 0 200 false]
               emptyTask))
    /\ writesLists s1 l [5]
       = (sampleSession
            [sampleTask 1 5 0 100 false; sampleTask 2 5 0 200 false],
          true, None).
Proof.
  exact (proj2 (proj2 (CanUpdate_asks_for_the_shared_list (list Z)
                         writesLists
                         (sampleSession
                            [sampleTask 1 5 0 100 false;
                             sampleTask 2 5 0 200 false])
                         (mkBulkTask [1; 2] [] emptyTask) [5]))
           _ _ None eq_refl).
Defined.

(** *** Failures and the rows a run leaves alone *)

Lemma updateLoop_prefix step pre : forall s p post s1 p1 pre',
  updateLoop step s p pre = (s1, p1, pre', None) ->
  updateLoop step s p (pre ++ post)
  = (let '(s2, p2, post', e) := updateLoop step s1 p1 post in
     (s2, p2, (pre' ++ post')%list, e)).
Proof.
  induction pre as [| t pre IH]; intros s p post s1 p1 pre' H.
  - inversion H; subst. simpl.
    now destruct (updateLoop step s1 p1 post) as [[[a b] c] d].
  - simpl in H |- *. destruct (updateDone t p) as [old1 q].
    destruct (updateTaskAssignees step s old1 (Assignees q))
      as [[sa old2] err1].
    destruct err1; [discriminate |].
    destruct (updateCols sa _ _) as [sb err2].
    destruct err2; [discriminate |].
    destruct (updateLoop step sb q pre) as [[[sc pc] prec] errc] eqn:E.
    destruct errc; [discriminate |]. inversion H; subst.
    rewrite (IH _ _ post _ _ _ E).
    now destruct (updateLoop step s1 p1 post) as [[[a b] c] d].
Qed.

Lemma updateLoop_error step ts : forall s p s' p' ts' e,
  updateLoop step s p ts = (s', p', ts', Some e) ->
  exists pre t post s1 p1 pre' t',
    ts = (pre ++ t :: post)%list
    /\ updateLoop step s p pre = (s1, p1, pre', None)
    /\ tasks s' = tasks s1
    /\ ts' = (pre' ++ t' :: post)%list.
Proof.
  induction ts as [| t ts IH]; intros s p s' p' ts' e H; [discriminate |].
  simpl in H. destruct (updateDone t p) as [old1 q] eqn:U.
  destruct (updateTaskAssignees step s old1 (Assignees q))
    as [[sa old2] err1] eqn:E1.
  pose proof (updateTaskAssignees_tasks _ _ _ _ _ _ _ E1) as [T1 _].
  destruct err1 as [e1 |].
  { inversion H; subst.
    exists [], t, ts, s, p, []. eexists. repeat split; auto. }
  destruct (updateCols sa _ _) as [sb err2] eqn:E2.
  pose proof (updateCols_tasks _ _ _ _ _ E2) as T2.
  destruct err2 as [e2 |].
  { inversion H; subst.
    destruct T2 as [[? _] | [_ T2]]; [discriminate |].
    exists [], t, ts, s, p, []. eexists.
    repeat split; auto. now rewrite T2, T1. }
  destruct (updateLoop step sb q ts) as [[[sc pc] rest3] err3] eqn:E3.
  inversion H; subst.
  destruct (IH _ _ _ _ _ _ E3)
    as (pre & t0 & post & s1 & p1 & pre' & t' & -> & Hpre & Ht & ->).
  exists (t :: pre), t0, post, s1, p1. eexists. exists t'.
  split; [reflexivity |]. split.
  { simpl. rewrite U, E1, E2, Hpre. reflexivity. }
  split; [exact Ht | reflexivity].
Qed.

(** X3. When a bulk update returns an error it has stopped at one target:
    the targets before it were processed without error and their writes are
    in the session, the write of the failing target and of every target
    after it did not happen, and the targets after it are untouched in
    memory. *)
Theorem Update_stops_at_the_first_error
  (step : AssigneeStep) (s s' : Session) (bt bt' : BulkTask) (e : Error) :
  Update step s bt = (s', bt', Some e) ->
  exists pre t post s1 p1 pre' t',
    Tasks bt = (pre ++ t :: post)%list
    /\ updateLoop step s (Payload bt) pre = (s1, p1, pre', None)
    /\ tasks s' = tasks s1
    /\ Tasks bt' = (pre' ++ t' :: post)%list.
Proof.
  intros H. apply Update_loop in H. now apply updateLoop_error in H.
Qed.

Lemma Update_stops_at_the_first_error_witness :
  exists pre t post s1 p1 pre' t',
    [sampleTask 1 5 0 100 true; sampleTask 2 5 0 200 true]
    = (pre ++ t :: post)%list
    /\ updateLoop replaceAssignees
         (mkSession [sampleTask 1 5 0 100 true; sampleTask 2 5 0 200 true]
            [] [false; true])
         emptyTask pre
       = (s1, p1, pre', None)
    /\ [sampleTask 1 5 0 100 false; sampleTask 2 5 0 200 true] = tasks s1
    /\ [sampleTask 1 5 0 100 false; sampleTask 2 5 0 200 false]
       = (pre' ++ t' :: post)%list.
Proof.
  exact (Update_stops_at_the_first_error replaceAssignees
           (mkSession [sampleTask 1 5 0 100 true; sampleTask 2 5 0 200 true]
              [] [false; true])
           (mkSession [sampleTask 1 5 0 100 false; sampleTask 2 5 0 200 true]
              [] [])
           (mkBulkTask [1; 2]
              [sampleTask 1 5 0 100 true; sampleTask 2 5 0 200 true]
              emptyTask)
           (mkBulkTask [1; 2]
              [sampleTask 1 5 0 100 false; sampleTask 2 5 0 200 false]
              emptyTask)
           ErrDB eq_refl).
Defined.

Lemma sameUnless_refl ids r : sameUnless ids r r.
Proof. split; auto. Qed.

Lemma Forall2_sameUnless_refl ids rows : Forall2 (sameUnless ids) rows rows.
Proof. induction rows; constructor; auto using sameUnless_refl. Qed.

Lemma Forall2_sameUnless_trans ids a : forall b c,
  Forall2 (sameUnless ids) a b -> Forall2 (sameUnless ids) b c ->
  Forall2 (sameUnless ids) a c.
Proof.
  induction a as [| x a IH]; intros b c H1 H2.
  - inversion H1; subst. inversion H2; subst. constructor.
  - inversion H1 as [| ? y ? b' [I1 K1] R1]; subst.
    inversion H2 as [| ? z ? c' [I2 K2] R2]; subst.
    constructor; [| eauto]. split; [congruence |].
    intros N. rewrite K2 by (rewrite I1; exact N). now apply K1.
Qed.

Lemma Forall2_sameUnless_more ids ids' a b :
  (forall x, In x ids -> In x ids') ->
  Forall2 (sameUnless ids) a b -> Forall2 (sameUnless ids') a b.
Proof.
  intros Hsub H. induction H as [| x y a b [I K] _ IH]; constructor; auto.
  split; [exact I |]. intros N. apply K. intros C. apply N. now apply Hsub.
Qed.

Lemma written_sameUnless id src rows :
  Forall2 (sameUnless [id]) rows
    (map (fun row => if ID row =? id then writeCols row src else row) rows).
Proof.
  induction rows as [| r rows IH]; simpl; constructor; auto.
  destruct (Z.eqb_spec (ID r) id) as [E | N].
  - split; [reflexivity |]. intros C. exfalso. apply C. now left.
  - apply sameUnless_refl.
Qed.

Lemma updateLoop_sameUnless step ts : forall s p,
  Forall2 (sameUnless (map (writtenID p) ts)) (tasks s)
    (tasks (fst (fst (fst (updateLoop step s p ts))))).
Proof.
  induction ts as [| t ts IH]; intros s p.
  - apply Forall2_sameUnless_refl.
  - simpl updateLoop. destruct (updateDone t p) as [old1 q] eqn:U.
    assert (Iq : ID q = ID p).
    { pose proof (updateDone_payload t p) as L. rewrite U in L.
      now apply payloadLater_ID in L. }
    assert (I1 : ID old1 = ID t).
    { pose proof (updateDone_ID t p) as L. now rewrite U in L. }
    destruct (updateTaskAssignees step s old1 (Assignees q))
      as [[sa old2] err1] eqn:E1.
    apply updateTaskAssignees_tasks in E1. destruct E1 as [T1 [mem ->]].
    destruct err1; [simpl; rewrite T1; apply Forall2_sameUnless_refl |].
    destruct (updateCols sa _ _) as [sb err2] eqn:E2.
    apply updateCols_tasks in E2.
    destruct err2.
    { destruct E2 as [[? _] | [_ T2]]; [discriminate |].
      simpl. rewrite T2, T1. apply Forall2_sameUnless_refl. }
    destruct E2 as [[_ T2] | [? _]]; [| discriminate].
    specialize (IH sb q).
    destruct (updateLoop step sb q ts) as [[[sc pc] rest3] err3].
    simpl in IH |- *.
    apply Forall2_sameUnless_trans with (b := tasks sb).
    + rewrite T2, T1.
      eapply Forall2_sameUnless_more; [| apply written_sameUnless].
      intros x [<- | []]. left. unfold writtenID.
      rewrite mergePayload_ID. simpl. now rewrite Iq, I1.
    + eapply Forall2_sameUnless_more; [| exact IH].
      intros x Hx. right.
      replace (map (writtenID p) ts) with (map (writtenID q) ts);
        [exact Hx |].
      apply map_ext. intros u. unfold writtenID. now rewrite Iq.
Qed.

(** X4. However a bulk update ends, the stored tasks are the same rows in
    the same order with the same ids, and a row is changed only if its id is
    one the persistence step wrote under: the id in the payload when the
    payload carries one, the id of a target otherwise. *)
Theorem Update_changes_written_rows_only
  (step : AssigneeStep) (s : Session) (bt : BulkTask) :
  Forall2 (sameUnless (map (writtenID (Payload bt)) (Tasks bt))) (tasks s)
    (tasks (fst (fst (Update step s bt))))
  /\ (forall t, writtenID (Payload bt) t
                = if ID (Payload bt) =? 0 then ID t else ID (Payload bt)).
Proof.
  split.
  - pose proof (updateLoop_sameUnless step (Tasks bt) s (Payload bt)) as H.
    unfold Update.
    now destruct (updateLoop step s (Payload bt) (Tasks bt))
      as [[[a b] c] d].
  - intros t. reflexivity.
Qed.

(** *** What a successful run stores *)

Lemma updateLoop_payload_kept step ts : forall s p s' p' ts',
  Done p = false ->
  updateLoop step s p ts = (s', p', ts', None) -> p' = p.
Proof.
  induction ts as [| t ts IH]; intros s p s' p' ts' Hp H.
  - now inversion H.
  - apply updateLoop_cons in H. destruct H as (s2 & mem & _ & rest' & H).
    rewrite (updateDone_not_done t p Hp) in H. simpl in H. eauto.
Qed.

Lemma listed_mergePayload mem t p :
  Done p = false ->
  listed (mergePayload (setAssignees mem t) p) = listed (merge t p).
Proof. intros H. unfold mergePayload. now rewrite H. Qed.

(** X5. Let a bulk update return without error, with a payload that is not
    marked done and carries no id, on targets with distinct ids. Then every
    stored row of a target is not done and holds, in each other listed
    column, the payload's value where the payload has one and the target's
    own value where the payload is empty there. *)
Theorem Update_stores_the_merged_columns
  (step : AssigneeStep) (s s' : Session) (bt bt' : BulkTask) :
  Done (Payload bt) = false ->
  ID (Payload bt) = 0 ->
  NoDup (map ID (Tasks bt)) ->
  Update step s bt = (s', bt', None) ->
  forall t r, In t (Tasks bt) -> In r (tasks s') -> ID r = ID t ->
    Done r = false
    /\ listed r = listed (merge t (Payload bt))
    /\ Title r
       = (if String.eqb (Title (Payload bt)) "" then Title t
          else Title (Payload bt)).
Proof.
  intros Hd Hid Hnd H t r Hin Hr Hrid.
  apply Update_loop in H.
  apply in_split in Hin. destruct Hin as (pre & post & E).
  rewrite E in H, Hnd. apply updateLoop_app in H.
  destruct H as (s1 & p1 & pre' & post' & Ha & Hb).
  assert (p1 = Payload bt) by (eapply updateLoop_payload_kept; eauto).
  subst p1.
  apply updateLoop_cons in Hb. destruct Hb as (s2 & mem & T2 & rest' & Hb).
  rewrite (updateDone_not_done t _ Hd) in T2, Hb. simpl in T2, Hb.
  assert (Hnot : ~ In (ID t) (map ID post)).
  { rewrite map_app in Hnd. simpl in Hnd. apply NoDup_remove_2 in Hnd.
    intros C. apply Hnd. apply in_or_app. now right. }
  pose proof (updateLoop_untouched step (ID t) post s2 _ s' _ rest'
                Hid Hnot Hb r Hr Hrid) as Hin2.
  rewrite T2 in Hin2. apply in_map_written in Hin2.
  destruct Hin2 as [(row & _ & _ & ->) | [_ Hne]].
  - assert (L : listed (writeCols row
                          (mergePayload (setAssignees mem t) (Payload bt)))
                = listed (merge t (Payload bt)))
      by (rewrite <- (listed_mergePayload mem t _ Hd); reflexivity).
    split; [| split; [exact L |]].
    + simpl. now apply mergePayload_not_done.
    + apply (f_equal (fun x => fst (fst (fst (fst (fst (fst (fst x)))))))) in L.
      exact L.
  - exfalso. apply Hne. rewrite Hrid, mergePayload_ID. simpl.
    unfold overZ. now rewrite Hid.
Qed.

Lemma Update_stores_the_merged_columns_witness :
  Done (mkTask 1 "mow lawn" "" false 100 [40] 5 0 0 0 0 [] [] 1 10 10) = false
  /\ listed (mkTask 1 "mow lawn" "" false 100 [40] 5 0 0 0 0 [] [] 1 10 10)
     = listed
         (merge (sampleTask 1 5 0 100 true)
            (mkTask 0 "mow lawn" "" false 0 [] 9 0 0 0 0 [] [] 0 0 0))
  /\ Title (mkTask 1 "mow lawn" "" false 100 [40] 5 0 0 0 0 [] [] 1 10 10)
     = "mow lawn".
Proof.
  pose (t := sampleTask 1 5 0 100 true).
  pose (payload := mkTask 0 "mow lawn" "" false 0 [] 9 0 0 0 0 [] [] 0 0 0).
  assert (N : NoDup (map ID [t]))
    by (constructor; [intros [] | constructor]).
  exact (Update_stores_the_merged_columns replaceAssignees
           (sampleSession [t])
           (fst (fst (Update replaceAssignees (sampleSession [t])
                        (mkBulkTask [1] [t] payload))))
           (mkBulkTask [1] [t] payload)
           (snd (fst (Update replaceAssignees (sampleSession [t])
                        (mkBulkTask [1] [t] payload))))
           eq_refl eq_refl N eq_refl
           t (mkTask 1 "mow lawn" "" false 100 [40] 5 0 0 0 0 [] [] 1 10 10)
           (or_introl eq_refl) (or_introl eq_refl) eq_refl).
Defined.

End BulkFacts.

(** * Properties of the team resource *)

Module TeamFacts.
Import Team.

(** ** C8: link shares may not list teams *)

(** C8. For a link-share principal [Team.ReadAll] returns no result, zero
    counts and [ErrGenericForbidden] (a 403), whatever the search string,
    the page and the page size are, without sending a statement. *)
Theorem link_share_cannot_list_teams
  (like : string -> string -> bool) (s : Session) (l : LinkSharing)
  (search : string) (page perPage : Z) :
  ReadAll like s (AuthLinkSharing l) search page perPage
  = (s, None, 0, 0, Some ErrGenericForbidden)
  /\ HTTPStatus ErrGenericForbidden = 403.
Proof. split; reflexivity. Qed.

(** ** C6: deleting a team *)

Lemma deleteStep_cases s after s' e :
  deleteStep s after = (s', e) ->
  (e = None /\ relations s' = relations (after s))
  \/ (e = Some ErrDB /\ relations s' = relations s).
Proof.
  unfold deleteStep. destruct (nextFault (faults s)) as [failed rest].
  destruct failed; intros H; inversion H; subst; auto.
Qed.

Lemma deleteStep_no_fault s after :
  faults s = [] ->
  deleteStep s after = (withFaults (after s) [], None).
Proof. intros H. unfold deleteStep. now rewrite H. Qed.

Lemma Delete_cases s team s' e :
  Delete s team = (s', e) ->
  (e = None /\ relations s' = cascaded (ID team) s) \/ e = Some ErrDB.
Proof.
  unfold Delete.
  destruct (deleteStep s _) as [s1 e1] eqn:E1.
  apply deleteStep_cases in E1.
  destruct E1 as [[-> R1] | [-> _]]; [| intros H; inversion H; auto].
  destruct (deleteStep s1 _) as [s2 e2] eqn:E2.
  apply deleteStep_cases in E2.
  destruct E2 as [[-> R2] | [-> _]]; [| intros H; inversion H; auto].
  destruct (deleteStep s2 _) as [s3 e3] eqn:E3.
  apply deleteStep_cases in E3.
  destruct E3 as [[-> R3] | [-> _]]; [| intros H; inversion H; auto].
  intros E4. apply deleteStep_cases in E4.
  destruct E4 as [[-> R4] | [-> _]]; [| auto].
  left. split; [reflexivity |].
  unfold relations, cascaded in *. simpl in *.
  inversion R1. inversion R2. inversion R3. inversion R4.
  congruence.
Qed.

Lemma filter_none_left {A : Type} (f : A -> bool) (l : list A) :
  Forall (fun x => f x = true) (filter f l).
Proof.
  rewrite Forall_forall. intros x H. now apply filter_In in H.
Qed.

(** A failure in the middle of the cascade: [Delete] stops there, with the
    team row gone from the session and the member rows still in it; the
    transaction around it gives back the relations as they were. *)
Example delete_stops_at_first_failure :
  relations (fst (Delete (sampleDB [false; true]) ops))
  = (users (sampleDB []), [dev], team_members (sampleDB []),
     team_namespaces (sampleDB []), team_lists (sampleDB []))
  /\ inTransaction (sampleDB [false; true]) (fun s => Delete s ops)
     = (sampleDB [], Some ErrDB).
Proof. split; reflexivity. Qed.

(** C6. Deleting team [team] in a transaction has two outcomes. Either it
    returns no error, and then the team row and every member, team-namespace
    and team-list row that refers to the team are gone while all other rows
    are kept in order; or it returns an error, and then every relation is
    what it was before. With no statement failing the first outcome
    occurs. *)
Theorem delete_team_cascades_atomically
  (db db' : Session) (team : Team.t) (err : option Error) :
  inTransaction db (fun s => Delete s team) = (db', err) ->
  ((err = None
    /\ relations db' = cascaded (ID team) db
    /\ Forall (fun row => ID row <> ID team) (teams db')
    /\ Forall (fun m => TeamMember.TeamID m <> ID team) (team_members db')
    /\ Forall (fun r => TeamNamespace.TeamID r <> ID team)
         (team_namespaces db')
    /\ Forall (fun r => TeamList.TeamID r <> ID team) (team_lists db'))
   \/ (err = Some ErrDB /\ relations db' = relations db))
  /\ (faults db = [] -> err = None).
Proof.
  unfold inTransaction.
  destruct (Delete db team) as [s' e] eqn:D.
  intros H. split.
  - apply Delete_cases in D. destruct D as [[-> R] | ->].
    + inversion H; subst. left. split; [reflexivity |].
      split; [exact R |].
      unfold relations, cascaded in R. injection R as _ Ht Hm Hn Hl.
      rewrite Ht, Hm, Hn, Hl.
      repeat split;
        (eapply Forall_impl; [| apply filter_none_left]);
        intros x Hx C; cbv beta in Hx; rewrite C, Z.eqb_refl in Hx;
        discriminate.
    + inversion H; subst. right. split; reflexivity.
  - intros F. unfold Delete in D.
    rewrite (deleteStep_no_fault _ _ F) in D.
    rewrite deleteStep_no_fault in D by reflexivity.
    rewrite deleteStep_no_fault in D by reflexivity.
    rewrite deleteStep_no_fault in D by reflexivity.
    inversion D; subst. now inversion H.
Qed.

Lemma delete_team_cascades_atomically_witness :
  relations (fst (inTransaction (sampleDB []) (fun s => Delete s ops)))
  = (users (sampleDB []), [dev], [TeamMember.mk 3 2 "" 2 true 11],
     [TeamNamespace.mk 2 2 7 1], [TeamList.mk 1 2 3 0]).
Proof.
  destruct (delete_team_cascades_atomically (sampleDB [])
              (fst (inTransaction (sampleDB []) (fun s => Delete s ops)))
              ops
              (snd (inTransaction (sampleDB []) (fun s => Delete s ops)))
              eq_refl) as [[(_ & R & _) | (E & _)] _].
  - exact R.
  - discriminate E.
Defined.

(** ** C7: creating a team *)


Lemma filter_nothing {A : Type} (f : A -> bool) (l : list A) :
  (forall x, In x l -> f x = false) -> filter f l = [].
Proof.
  induction l as [| a l IH]; [reflexivity |]. intros H. simpl.
  rewrite (H a (or_introl eq_refl)). apply IH. intros x Hx. apply H.
  now right.
Qed.







(** Creating the team and reading it back: the creator is the only member
    and is an admin. *)
Example create_then_read :
  let created := Create (sampleDB []) (AuthUser alice) newOps in
  snd (fst created) = Team.mk 3 "Ops" "" 1 (Some alice) [] 0 0
  /\ snd created = None
  /\ ReadOne (fst (fst created)) (Team.mk 3 "" "" 0 None [] 0 0)
     = (fst (fst created),
        Team.mk 3 "Ops" "" 1 (Some (user.mkUser 1 "alice" ""))
          [TeamUser.mk (user.mkUser 1 "alice" "") true 3] 0 0,
        None).
Proof. repeat split. Qed.

(** ** C10: member emails are blanked *)

Lemma appendMember_blank id m ts :
  user.Email (TeamUser.User m) = "" ->
  Forall emailsBlank ts -> Forall emailsBlank (appendMember id m ts).
Proof.
  intros Hm. induction ts as [| team rest IH]; intros H; [constructor |].
  inversion H as [| ? ? Ht Hr]; subst. simpl.
  destruct ((ID team =? id) && negb (hasID id (map ID rest))).
  - constructor; [| exact Hr].
    unfold emailsBlank, addMember. simpl.
    apply Forall_app. split; [exact Ht | now constructor].
  - constructor; auto.
Qed.

Lemma appendMember_IDs id m ts : map ID (appendMember id m ts) = map ID ts.
Proof.
  induction ts as [| team rest IH]; [reflexivity |]. simpl.
  destruct ((ID team =? id) && negb (hasID id (map ID rest))); simpl;
    [reflexivity | now rewrite IH].
Qed.

Lemma assignMembers_blank entries : forall ts,
  Forall emailsBlank ts ->
  Forall emailsBlank (snd (assignMembers entries ts)).
Proof.
  induction entries as [| [k u] rest IH]; intros ts H; [exact H |].
  simpl. destruct (hasID (TeamUser.TeamID u) (map ID ts)).
  - specialize (IH (appendMember (TeamUser.TeamID u) (blankEmail u) ts)).
    destruct (assignMembers rest _) as [rest' ts']. simpl in *.
    apply IH. now apply appendMember_blank.
  - specialize (IH ts H).
    destruct (assignMembers rest ts) as [rest' ts']. exact IH.
Qed.

Lemma assignMembers_IDs entries : forall ts,
  map ID (snd (assignMembers entries ts)) = map ID ts.
Proof.
  induction entries as [| [k u] rest IH]; intros ts; [reflexivity |].
  simpl. destruct (hasID (TeamUser.TeamID u) (map ID ts)).
  - specialize (IH (appendMember (TeamUser.TeamID u) (blankEmail u) ts)).
    destruct (assignMembers rest _) as [rest' ts']. simpl in *.
    now rewrite IH, appendMember_IDs.
  - specialize (IH ts).
    destruct (assignMembers rest ts) as [rest' ts']. exact IH.
Qed.

Lemma assignOwners_blank usersMap ts :
  Forall emailsBlank ts -> Forall emailsBlank (assignOwners usersMap ts).
Proof.
  induction ts as [| team rest IH]; intros H; [constructor |].
  inversion H as [| ? ? Ht Hr]; subst. simpl. constructor; [| auto].
  destruct (hasID (ID team) (map ID rest)); [exact Ht |].
  destruct (mapGet (CreatedByID team) usersMap); exact Ht.
Qed.

Lemma assignOwners_IDs usersMap ts :
  map ID (assignOwners usersMap ts) = map ID ts.
Proof.
  induction ts as [| team rest IH]; [reflexivity |]. simpl. rewrite IH.
  f_equal. destruct (hasID (ID team) (map ID rest)); [reflexivity |].
  now destruct (mapGet (CreatedByID team) usersMap).
Qed.

Lemma addMoreInfoToTeams_blank s ts :
  Forall emailsBlank ts ->
  Forall emailsBlank (snd (fst (addMoreInfoToTeams s ts))).
Proof.
  intros H. unfold addMoreInfoToTeams.
  destruct (nextFault (faults s)) as [failed rest].
  destruct failed; [exact H |].
  pose proof (assignMembers_blank
                (findUsers (filter (memberOrOwner (map ID ts)
                                      (map CreatedByID ts)) (joinRows s)))
                ts H) as B.
  destruct (assignMembers _ ts) as [usersMap' ts']. simpl in *.
  now apply assignOwners_blank.
Qed.

Lemma addMoreInfoToTeams_IDs s ts :
  map ID (snd (fst (addMoreInfoToTeams s ts))) = map ID ts.
Proof.
  unfold addMoreInfoToTeams.
  destruct (nextFault (faults s)) as [failed rest].
  destruct failed; [reflexivity |].
  pose proof (assignMembers_IDs
                (findUsers (filter (memberOrOwner (map ID ts)
                                      (map CreatedByID ts)) (joinRows s)))
                ts) as B.
  destruct (assignMembers _ ts) as [usersMap' ts']. simpl in *.
  now rewrite assignOwners_IDs.
Qed.

Lemma Forall_skipn' {A : Type} (P : A -> Prop) n : forall l,
  Forall P l -> Forall P (skipn n l).
Proof.
  induction n as [| n IH]; intros l H; [exact H |].
  destruct l as [| a l]; [constructor |]. simpl. apply IH.
  now inversion H.
Qed.

Lemma Forall_firstn' {A : Type} (P : A -> Prop) n : forall l,
  Forall P l -> Forall P (firstn n l).
Proof.
  induction n as [| n IH]; intros l H; [constructor |].
  destruct l as [| a l]; [constructor |]. simpl.
  inversion H; subst. constructor; auto.
Qed.

Lemma stored_blank team : emailsBlank (stored team).
Proof. constructor. Qed.

Lemma teamsOf_blank like s id search :
  Forall emailsBlank (teamsOf like s id search).
Proof.
  unfold teamsOf. rewrite Forall_forall. intros x Hx.
  apply in_flat_map in Hx. destruct Hx as (team & _ & Hx).
  apply in_map_iff in Hx. destruct Hx as (m & <- & _).
  apply stored_blank.
Qed.

Lemma applyLimit_blank limit start rows :
  Forall emailsBlank rows -> Forall emailsBlank (applyLimit limit start rows).
Proof.
  intros H. unfold applyLimit. destruct (0 <? limit); [| exact H].
  now apply Forall_firstn', Forall_skipn'.
Qed.

Lemma GetTeamByID_blank s id s' team e :
  GetTeamByID s id = (s', Some team, e) -> emailsBlank team.
Proof.
  unfold GetTeamByID. destruct (id <? 1); [discriminate |].
  destruct (nextFault (faults s)) as [failed rest].
  destruct failed; [discriminate |].
  destruct (filter _ (teams s)) as [| row rows].
  - intros H. inversion H. constructor.
  - pose proof (addMoreInfoToTeams_blank (withFaults s rest) [stored row]
                  (Forall_cons _ (stored_blank row) (Forall_nil _))) as B.
    destruct (addMoreInfoToTeams _ _) as [[s2 teamSlice] err]. simpl in B.
    destruct err; [discriminate |].
    intros H. inversion H as [[Hs Hh He]].
    destruct teamSlice as [| x xs]; [discriminate |].
    simpl in Hh. inversion Hh; subst. now inversion B.
Qed.

Lemma GetTeamByID_found s id s' :
  GetTeamByID s id = (s', None, None) -> False.
Proof.
  unfold GetTeamByID. destruct (id <? 1); [discriminate |].
  destruct (nextFault (faults s)) as [failed rest].
  destruct failed; [discriminate |].
  destruct (filter _ (teams s)) as [| row rows]; [discriminate |].
  pose proof (addMoreInfoToTeams_IDs (withFaults s rest) [stored row]) as L.
  destruct (addMoreInfoToTeams _ _) as [[s2 teamSlice] err]. simpl in L.
  destruct err; [discriminate |].
  destruct teamSlice; [discriminate L | discriminate].
Qed.

(** C10. In the team that [Team.ReadOne] returns without error, and in
    every team of the result of [Team.ReadAll], each listed member has the
    empty string as email. *)
Theorem member_emails_are_blank
  (like : string -> string -> bool) (s s' : Session) :
  (forall team team',
     ReadOne s team = (s', team', None) -> emailsBlank team')
  /\ (forall a search page perPage result n total err,
        ReadAll like s a search page perPage
        = (s', Some result, n, total, err) ->
        Forall emailsBlank result).
Proof.
  split.
  - intros team team'. unfold ReadOne.
    destruct (GetTeamByID s (ID team)) as [[s1 found] e] eqn:G.
    destruct found as [x |].
    + intros H. inversion H; subst. eapply GetTeamByID_blank; eauto.
    + intros H. inversion H; subst. exfalso.
      eapply GetTeamByID_found; eauto.
  - intros a search page perPage result n total err. unfold ReadAll.
    destruct a as [u | l]; [| discriminate].
    destruct (getLimitFromPageIndex page perPage) as [limit start].
    destruct (nextFault (faults s)) as [f1 r1].
    destruct f1; [discriminate |].
    pose proof (addMoreInfoToTeams_blank (withFaults s r1)
                  (applyLimit limit start
                     (teamsOf like s (GetID (AuthUser u)) search))
                  (applyLimit_blank _ _ _ (teamsOf_blank _ _ _ _))) as B.
    destruct (addMoreInfoToTeams _ _) as [[s2 all'] e2]. simpl in B.
    destruct e2; [discriminate |].
    destruct (nextFault (faults s2)) as [f3 r3].
    destruct f3; intros H; inversion H; subst; exact B.
Qed.

(** Reading team 1 of the sample data: both members are listed, without
    their emails, and the creator is filled in. *)
Example read_ops :
  ReadOne (sampleDB []) (Team.mk 1 "" "" 0 None [] 0 0)
  = (sampleDB [],
     Team.mk 1 "Ops" "" 1 (Some (user.mkUser 1 "alice" ""))
       [TeamUser.mk (user.mkUser 1 "alice" "") true 1;
        TeamUser.mk (user.mkUser 2 "bob" "") false 1]
       10 10,
     None).
Proof. reflexivity. Qed.

Lemma member_emails_are_blank_witness :
  emailsBlank
    (Team.mk 1 "Ops" "" 1 (Some (user.mkUser 1 "alice" ""))
       [TeamUser.mk (user.mkUser 1 "alice" "") true 1;
        TeamUser.mk (user.mkUser 2 "bob" "") false 1]
       10 10).
Proof.
  exact (proj1 (member_emails_are_blank (fun _ _ => true) (sampleDB [])
                  (sampleDB []))
           (Team.mk 1 "" "" 0 None [] 0 0) _ read_ops).
Defined.

(** ** Further properties of the team resource *)

(** *** What addMoreInfoToTeams keeps *)

Lemma appendMember_stored id m ts :
  map stored (appendMember id m ts) = map stored ts.
Proof.
  induction ts as [| team rest IH]; [reflexivity |]. simpl.
  destruct ((ID team =? id) && negb (hasID id (map ID rest))); simpl;
    [reflexivity | now rewrite IH].
Qed.

Lemma assignMembers_stored entries : forall ts,
  map stored (snd (assignMembers entries ts)) = map stored ts.
Proof.
  induction entries as [| [k u] rest IH]; intros ts; [reflexivity |].
  simpl. destruct (hasID (TeamUser.TeamID u) (map ID ts)).
  - specialize (IH (appendMember (TeamUser.TeamID u) (blankEmail u) ts)).
    destruct (assignMembers rest _) as [rest' ts']. simpl in *.
    now rewrite IH, appendMember_stored.
  - specialize (IH ts).
    destruct (assignMembers rest ts) as [rest' ts']. exact IH.
Qed.

Lemma assignOwners_stored usersMap ts :
  map stored (assignOwners usersMap ts) = map stored ts.
Proof.
  induction ts as [| team rest IH]; [reflexivity |]. simpl. rewrite IH.
  f_equal. destruct (hasID (ID team) (map ID rest)); [reflexivity |].
  now destruct (mapGet (CreatedByID team) usersMap).
Qed.

Lemma assignOwners_Members usersMap ts :
  map Members (assignOwners usersMap ts) = map Members ts.
Proof.
  induction ts as [| team rest IH]; [reflexivity |]. simpl. rewrite IH.
  f_equal. destruct (hasID (ID team) (map ID rest)); [reflexivity |].
  now destruct (mapGet (CreatedByID team) usersMap).
Qed.

Lemma addMoreInfoToTeams_stored (s : Session) (ts : list Team.t) :
  map stored (snd (fst (addMoreInfoToTeams s ts))) = map stored ts
  /\ relations (fst (fst (addMoreInfoToTeams s ts))) = relations s.
Proof.
  unfold addMoreInfoToTeams.
  destruct (nextFault (faults s)) as [failed rest].
  destruct failed; [split; reflexivity |].
  pose proof (assignMembers_stored
                (findUsers (filter (memberOrOwner (map ID ts)
                                      (map CreatedByID ts)) (joinRows s)))
                ts) as B.
  destruct (assignMembers _ ts) as [usersMap' ts']. simpl in *.
  split; [now rewrite assignOwners_stored | reflexivity].
Qed.

(** X6. [addMoreInfoToTeams] fills in members and creators only: however it
    ends, it returns the same teams in the same order with the same id,
    name, description, creator id and timestamps, and it leaves every
    relation of the session as it was. *)
Theorem addMoreInfoToTeams_keeps_the_columns (s : Session) (ts : list Team.t) :
  map stored (snd (fst (addMoreInfoToTeams s ts))) = map stored ts
  /\ relations (fst (fst (addMoreInfoToTeams s ts))) = relations s
  /\ forall team, stored team
                  = Team.mk (ID team) (Name team) (Description team)
                      (CreatedByID team) None [] (Created team)
                      (Updated team).
Proof.
  destruct (addMoreInfoToTeams_stored s ts) as [C R].
  split; [exact C | split; [exact R | reflexivity]].
Qed.

(** *** The map of users *)

Lemma mapPut_In k v m k' v' :
  In (k', v') (mapPut k v m) -> (k' = k /\ v' = v) \/ In (k', v') m.
Proof.
  induction m as [| [a b] m IH]; simpl.
  - intros [H | []]. inversion H. auto.
  - destruct (Z.eqb_spec a k) as [-> | N]; simpl.
    + intros [H | H]; [inversion H; auto | auto].
    + intros [H | H]; [auto |]. destruct (IH H); auto.
Qed.

Lemma mapPut_keys k v m :
  forall x, In x (map fst (mapPut k v m)) <-> x = k \/ In x (map fst m).
Proof.
  induction m as [| [a b] m IH]; intros x; simpl.
  - intuition.
  - destruct (Z.eqb_spec a k) as [-> | N]; simpl.
    + intuition.
    + rewrite IH. intuition.
Qed.

Lemma mapPut_NoDup k v m :
  NoDup (map fst m) -> NoDup (map fst (mapPut k v m)).
Proof.
  induction m as [| [a b] m IH]; simpl; intros H.
  - constructor; [intros [] | constructor].
  - inversion H as [| ? ? Hn Hm]; subst.
    destruct (Z.eqb_spec a k) as [-> | N]; simpl.
    + now constructor.
    + constructor; [| auto]. rewrite mapPut_keys. intros [-> | C]; auto.
Qed.


Lemma fold_mapPut rows : forall m0 all,
  (forall row, In row rows -> In row all) ->
  NoDup (map fst m0) -> fromRows all m0 ->
  let m := fold_left
             (fun m row => mapPut (user.ID (fst row)) (toTeamUser row) m)
             rows m0 in
  NoDup (map fst m) /\ fromRows all m
  /\ (forall x, In x (map fst m0) -> In x (map fst m))
  /\ (forall row, In row rows -> In (user.ID (fst row)) (map fst m)).
Proof.
  induction rows as [| r rows IH]; intros m0 all Hall Hnd Hfrom; simpl.
  - repeat split; auto. intros row [].
  - destruct (IH (mapPut (user.ID (fst r)) (toTeamUser r) m0) all)
      as (N & F & K & R).
    + intros row Hr. apply Hall. now right.
    + now apply mapPut_NoDup.
    + intros k v Hin. apply mapPut_In in Hin.
      destruct Hin as [[-> ->] | Hin]; [| now apply Hfrom].
      exists r. split; [apply Hall; now left | auto].
    + repeat split; auto.
      * intros x Hx. apply K. apply mapPut_keys. now right.
      * intros row [<- | Hr]; [| now apply R].
        apply K. apply mapPut_keys. now left.
Qed.

Lemma findUsers_spec rows :
  NoDup (map fst (findUsers rows)) /\ fromRows rows (findUsers rows)
  /\ (forall row, In row rows ->
        In (user.ID (fst row)) (map fst (findUsers rows))).
Proof.
  destruct (fold_mapPut rows [] rows) as (N & F & _ & R).
  - auto.
  - constructor.
  - intros k v [].
  - unfold findUsers. auto.
Qed.

Lemma mapGet_In k m v : mapGet k m = Some v -> In (k, v) m.
Proof.
  induction m as [| [a b] m IH]; simpl; [discriminate |].
  destruct (Z.eqb_spec a k) as [-> | N].
  - intros H. inversion H. now left.
  - intros H. right. auto.
Qed.

Lemma In_mapGet k m :
  In k (map fst m) -> exists v, mapGet k m = Some v.
Proof.
  induction m as [| [a b] m IH]; simpl; [intros [] |].
  destruct (Z.eqb_spec a k) as [-> | N]; [eauto |].
  intros [C | H]; [contradiction | auto].
Qed.

(** *** The rows of the join *)

Lemma joinRows_sound s row :
  In row (joinRows s) ->
  In (fst row) (users s)
  /\ match snd row with
     | None => True
     | Some (m, joined) =>
         In m (team_members s)
         /\ TeamMember.UserID m = user.ID (fst row)
         /\ match joined with
            | None => True
            | Some team => In team (teams s) /\ ID team = TeamMember.TeamID m
            end
     end.
Proof.
  unfold joinRows. rewrite in_flat_map. intros (u & Hu & H).
  destruct (filter (fun m => TeamMember.UserID m =? user.ID u)
              (team_members s)) as [| m0 ms] eqn:Fm.
  - destruct H as [<- | []]. simpl. auto.
  - rewrite <- Fm in H. clear Fm. apply in_flat_map in H.
    destruct H as (m & Hm & H). apply filter_In in Hm.
    destruct Hm as [Hm Em]. apply Z.eqb_eq in Em.
    destruct (filter (fun team => ID team =? TeamMember.TeamID m) (teams s))
      as [| t0 ts] eqn:Ft.
    + destruct H as [<- | []]. simpl. auto.
    + rewrite <- Ft in H. clear Ft. apply in_map_iff in H.
      destruct H as (team & <- & Ht). apply filter_In in Ht.
      destruct Ht as [Ht Et]. apply Z.eqb_eq in Et. simpl. auto.
Qed.

Lemma joinRows_complete s u m :
  In u (users s) -> In m (team_members s) ->
  TeamMember.UserID m = user.ID u ->
  exists joined, In (u, Some (m, joined)) (joinRows s).
Proof.
  intros Hu Hm E. unfold joinRows.
  assert (Fm : In m (filter (fun m => TeamMember.UserID m =? user.ID u)
                       (team_members s)))
    by (apply filter_In; split; [exact Hm | now apply Z.eqb_eq]).
  assert (K : exists joined,
            In (u, Some (m, joined))
              (match filter (fun team => ID team =? TeamMember.TeamID m)
                       (teams s) with
               | [] => [(u, Some (m, None))]
               | ts => map (fun team => (u, Some (m, Some team))) ts
               end)).
  { destruct (filter (fun team => ID team =? TeamMember.TeamID m) (teams s))
      as [| t0 ts].
    - exists None. now left.
    - exists (Some t0). now left. }
  destruct K as [joined K]. exists joined.
  apply in_flat_map. exists u. split; [exact Hu |].
  destruct (filter (fun m => TeamMember.UserID m =? user.ID u)
              (team_members s)) as [| m0 ms] eqn:Fe; [destruct Fm |].
  rewrite <- Fe. apply in_flat_map. exists m. split; [| exact K].
  now rewrite Fe.
Qed.

Lemma hasID_In id ids : hasID id ids = true <-> In id ids.
Proof.
  unfold hasID. rewrite existsb_exists. split.
  - intros (x & Hx & E). apply Z.eqb_eq in E. now subst.
  - intros H. exists id. split; [exact H | apply Z.eqb_refl].
Qed.

(** A row that passes the condition of the query is a member row of one of
    the teams asked for. *)
Lemma memberOrOwner_team s teamIDs ownerIDs row :
  In row (joinRows s) -> memberOrOwner teamIDs ownerIDs row = true ->
  exists m joined,
    snd row = Some (m, joined) /\ In (TeamMember.TeamID m) teamIDs.
Proof.
  intros Hin H. apply joinRows_sound in Hin. destruct Hin as [_ Hs].
  destruct row as [u [[m joined] |]]; simpl in *; [| discriminate].
  exists m, joined. split; [reflexivity |].
  apply orb_true_iff in H. destruct H as [H | H].
  - now apply hasID_In.
  - destruct joined as [team |]; [| discriminate].
    destruct Hs as (_ & _ & _ & Et).
    apply andb_true_iff in H. destruct H as [_ H].
    apply hasID_In in H. now rewrite <- Et.
Qed.

(** *** The members that are listed *)

Lemma appendMember_Forall (Q : Z -> TeamUser.t -> Prop) id m ts :
  Q id m ->
  Forall (fun team => Forall (Q (ID team)) (Members team)) ts ->
  Forall (fun team => Forall (Q (ID team)) (Members team))
    (appendMember id m ts).
Proof.
  intros Hm. induction ts as [| team rest IH]; intros H; [constructor |].
  inversion H as [| ? ? Ht Hr]; subst. simpl.
  destruct (Z.eqb_spec (ID team) id) as [E | N]; simpl.
  - destruct (negb (hasID id (map ID rest))).
    + constructor; [| exact Hr]. simpl. apply Forall_app.
      split; [exact Ht |]. constructor; [now rewrite E | constructor].
    + constructor; auto.
  - constructor; auto.
Qed.

Lemma assignMembers_Forall (Q : Z -> TeamUser.t -> Prop) entries :
  forall ts,
  (forall k v, In (k, v) entries -> Q (TeamUser.TeamID v) (blankEmail v)) ->
  Forall (fun team => Forall (Q (ID team)) (Members team)) ts ->
  Forall (fun team => Forall (Q (ID team)) (Members team))
    (snd (assignMembers entries ts)).
Proof.
  induction entries as [| [k u] rest IH]; intros ts HQ H; [exact H |].
  simpl. destruct (hasID (TeamUser.TeamID u) (map ID ts)).
  - specialize (IH (appendMember (TeamUser.TeamID u) (blankEmail u) ts)).
    destruct (assignMembers rest _) as [rest' ts']. simpl in *.
    apply IH; [intros k' v' Hin; apply (HQ k' v'); now right |].
    apply appendMember_Forall; [apply (HQ k u); now left | exact H].
  - specialize (IH ts).
    destruct (assignMembers rest ts) as [rest' ts']. simpl in *.
    apply IH; [intros k' v' Hin; apply (HQ k' v'); now right | exact H].
Qed.

Lemma addMoreInfoToTeams_members s ts :
  addMoreInfoToTeams s ts
  = (fst (fst (addMoreInfoToTeams s ts)), ts, Some ErrDB)
  \/ exists usersMap',
       addMoreInfoToTeams s ts
       = (fst (fst (addMoreInfoToTeams s ts)),
          assignOwners usersMap'
            (snd (assignMembers
                    (findUsers
                       (filter (memberOrOwner (map ID ts)
                                  (map CreatedByID ts)) (joinRows s)))
                    ts)),
          None)
       /\ usersMap'
          = fst (assignMembers
                   (findUsers
                      (filter (memberOrOwner (map ID ts)
                                 (map CreatedByID ts)) (joinRows s)))
                   ts).
Proof.
  unfold addMoreInfoToTeams.
  destruct (nextFault (faults s)) as [failed rest].
  destruct failed; [now left |]. right.
  destruct (assignMembers _ ts) as [usersMap' ts']. simpl. eauto.
Qed.

Lemma Forall_map_Members (P : Z -> list TeamUser.t -> Prop) a b :
  map ID a = map ID b -> map Members a = map Members b ->
  Forall (fun team => P (ID team) (Members team)) b ->
  Forall (fun team => P (ID team) (Members team)) a.
Proof.
  revert b. induction a as [| x a IH]; intros b HI HM H; [constructor |].
  destruct b as [| y b]; [discriminate |].
  inversion HI. inversion HM. inversion H; subst.
  constructor; [congruence | eauto].
Qed.

(** X7. Starting from teams without members, every member that
    [addMoreInfoToTeams] lists on a team is a stored user with a member row
    in that very team, listed with the admin flag of the row and with the
    email taken out. *)
Theorem listed_members_are_members (s : Session) (ts : list Team.t) :
  Forall (fun team => Members team = []) ts ->
  Forall (fun team => Forall (isMembership s (ID team)) (Members team))
    (snd (fst (addMoreInfoToTeams s ts))).
Proof.
  intros Hempty.
  assert (H0 : Forall (fun team => Forall (isMembership s (ID team))
                                     (Members team)) ts).
  { eapply Forall_impl; [| exact Hempty]. intros team ->. constructor. }
  destruct (addMoreInfoToTeams_members s ts) as [-> | (um & -> & _)];
    [exact H0 |].
  simpl.
  apply (Forall_map_Members (fun id ms => Forall (isMembership s id) ms)
           _ (snd (assignMembers
                     (findUsers
                        (filter (memberOrOwner (map ID ts)
                                   (map CreatedByID ts)) (joinRows s)))
                     ts))).
  - apply assignOwners_IDs.
  - apply assignOwners_Members.
  - apply assignMembers_Forall; [| exact H0].
    intros k v Hin.
    destruct (findUsers_spec
                (filter (memberOrOwner (map ID ts) (map CreatedByID ts))
                   (joinRows s))) as (_ & F & _).
    destruct (F k v Hin) as (row & Hrow & _ & ->).
    apply filter_In in Hrow. destruct Hrow as [Hj Hc].
    destruct (memberOrOwner_team s _ _ row Hj Hc) as (m & joined & E & _).
    apply joinRows_sound in Hj. destruct Hj as [Hu Hs].
    destruct row as [u x]. simpl in E. subst x. simpl in *.
    destruct Hs as (Hm & Eu & _).
    exists u, m. repeat split; auto.
Qed.

Lemma listed_members_are_members_witness :
  Forall
    (fun team => Forall (isMembership (sampleDB []) (ID team)) (Members team))
    (snd (fst (addMoreInfoToTeams (sampleDB []) [ops; dev]))).
Proof.
  apply listed_members_are_members. repeat constructor.
Defined.

(** *** Each user is listed once *)

Lemma appendMember_Permutation id m ts :
  In id (map ID ts) ->
  Permutation (flat_map Members (appendMember id m ts))
    (m :: flat_map Members ts).
Proof.
  induction ts as [| team rest IH]; [intros [] |]. intros Hin. simpl.
  destruct (Z.eqb_spec (ID team) id) as [E | N]; simpl.
  - destruct (hasID id (map ID rest)) eqn:Hr; simpl.
    + apply hasID_In in Hr. specialize (IH Hr).
      rewrite IH. symmetry. apply Permutation_middle.
    + rewrite <- app_assoc. simpl.
      symmetry. apply Permutation_middle.
  - destruct Hin as [C | Hr]; [contradiction |]. specialize (IH Hr).
    rewrite IH. symmetry. apply Permutation_middle.
Qed.


Lemma assignMembers_Permutation entries : forall ts,
  Permutation (flat_map Members (snd (assignMembers entries ts)))
    (map (fun e => blankEmail (snd e)) (chosen ts entries)
     ++ flat_map Members ts).
Proof.
  induction entries as [| [k u] rest IH]; intros ts; [reflexivity |].
  unfold chosen. simpl.
  destruct (hasID (TeamUser.TeamID u) (map ID ts)) eqn:Hc.
  - specialize (IH (appendMember (TeamUser.TeamID u) (blankEmail u) ts)).
    destruct (assignMembers rest _) as [rest' ts']. simpl in *.
    rewrite IH. unfold chosen. rewrite appendMember_IDs.
    rewrite appendMember_Permutation by (now apply hasID_In).
    symmetry. apply Permutation_middle.
  - specialize (IH ts).
    destruct (assignMembers rest ts) as [rest' ts']. exact IH.
Qed.

Lemma NoDup_filter_keys {B : Type} (f : Z * B -> bool) (m : list (Z * B)) :
  NoDup (map fst m) -> NoDup (map fst (filter f m)).
Proof.
  induction m as [| e m IH]; simpl; intros H; [constructor |].
  inversion H as [| ? ? Hn Hm]; subst.
  destruct (f e); simpl; [| auto].
  constructor; [| auto]. intros C. apply Hn.
  apply in_map_iff in C. destruct C as (x & Ex & Hx).
  apply filter_In in Hx. apply in_map_iff. exists x. tauto.
Qed.

(** X8. The users are collected in a map keyed by user id, and every entry
    is appended to one team: starting from teams without members, no user
    id is listed twice over all the teams that are returned. A user who is
    a member of several of the teams is listed on one of them only. *)
Theorem each_user_is_listed_once (s : Session) (ts : list Team.t) :
  Forall (fun team => Members team = []) ts ->
  NoDup (listedUserIDs (snd (fst (addMoreInfoToTeams s ts)))).
Proof.
  intros Hempty.
  assert (E0 : flat_map Members ts = []).
  { induction Hempty as [| team rest Ht _ IH]; [reflexivity |].
    simpl. now rewrite Ht, IH. }
  unfold listedUserIDs.
  destruct (addMoreInfoToTeams_members s ts) as [-> | (um & -> & _)].
  { simpl. rewrite E0. constructor. }
  simpl.
  set (rows := filter (memberOrOwner (map ID ts) (map CreatedByID ts))
                 (joinRows s)).
  assert (Em : flat_map Members
                 (assignOwners um (snd (assignMembers (findUsers rows) ts)))
               = flat_map Members (snd (assignMembers (findUsers rows) ts))).
  { rewrite !flat_map_concat_map. now rewrite assignOwners_Members. }
  rewrite Em.
  pose proof (assignMembers_Permutation (findUsers rows) ts) as P.
  rewrite E0, app_nil_r in P.
  apply (Permutation_map (fun m => user.ID (TeamUser.User m))) in P.
  eapply Permutation_NoDup; [symmetry; exact P |].
  rewrite map_map.
  destruct (findUsers_spec rows) as (N & F & _).
  assert (K : map (fun e => user.ID (TeamUser.User (blankEmail (snd e))))
                (chosen ts (findUsers rows))
              = map fst (chosen ts (findUsers rows))).
  { apply map_ext_in. intros [k v] Hin. unfold chosen in Hin.
    apply filter_In in Hin. destruct Hin as [Hin _].
    destruct (F k v Hin) as (row & _ & -> & ->).
    destruct row as [u [[m j] |]]; reflexivity. }
  rewrite K. now apply NoDup_filter_keys.
Qed.

Lemma each_user_is_listed_once_witness :
  NoDup (listedUserIDs (snd (fst (addMoreInfoToTeams (sampleDB []) [ops; dev])))).
Proof.
  apply each_user_is_listed_once. repeat constructor.
Defined.

(** Listing both teams of the sample data: user 2 is a member of both and
    is listed on the second one only. *)
Example member_of_two_teams :
  map (fun team => (ID team, map (fun m => user.ID (TeamUser.User m))
                                (Members team)))
    (snd (fst (addMoreInfoToTeams (sampleDB []) [ops; dev])))
  = [(1, [1]); (2, [2])].
Proof. reflexivity. Qed.

(** *** GetTeamByID and ReadOne *)

Lemma addMoreInfoToTeams_one s row s' ts' e :
  addMoreInfoToTeams s [row] = (s', ts', e) ->
  exists team, ts' = [team] /\ stored team = stored row
               /\ relations s' = relations s.
Proof.
  intros H.
  destruct (addMoreInfoToTeams_stored s [row]) as [C R].
  rewrite H in C, R. simpl in C, R.
  destruct ts' as [| team [| x xs]]; simpl in C; try discriminate C.
  exists team. repeat split; [congruence | exact R].
Qed.

Lemma GetTeamByID_success s id s' team :
  GetTeamByID s id = (s', Some team, None) ->
  1 <= id
  /\ exists row rows rest,
       filter (fun x => ID x =? id) (teams s) = row :: rows
       /\ addMoreInfoToTeams (withFaults s rest) [stored row]
          = (s', [team], None).
Proof.
  unfold GetTeamByID. destruct (Z.ltb_spec id 1) as [Lt | Ge]; [discriminate |].
  destruct (nextFault (faults s)) as [failed rest].
  destruct failed; [discriminate |].
  destruct (filter _ (teams s)) as [| row rows] eqn:F; [discriminate |].
  destruct (addMoreInfoToTeams _ _) as [[s2 teamSlice] err] eqn:A.
  destruct err; [discriminate |].
  intros H. inversion H; subst.
  destruct (addMoreInfoToTeams_one _ _ _ _ _ A) as (x & -> & _ & _).
  simpl in *. split; [lia |]. exists row, rows, rest.
  split; [reflexivity |]. congruence.
Qed.

(** X9. [GetTeamByID] answers an id below 1 with [ErrTeamDoesNotExist]
    without sending a statement. When it returns a team without error, the
    id is at least 1 and the team carries the columns of a stored row with
    that id. When no row has the id and the statement does not fail, it
    returns the zero team with [ErrTeamDoesNotExist]. It never changes a
    relation. *)
Theorem GetTeamByID_outcomes (s : Session) (id : Z) :
  (id < 1 -> GetTeamByID s id = (s, None, Some (ErrTeamDoesNotExist id)))
  /\ (forall s' team,
        GetTeamByID s id = (s', Some team, None) ->
        1 <= id /\ ID team = id
        /\ exists row, In row (teams s) /\ stored team = stored row)
  /\ (1 <= id -> Forall (fun row => ID row <> id) (teams s) ->
      fst (nextFault (faults s)) = false ->
      GetTeamByID s id
      = (withFaults s (snd (nextFault (faults s))), Some Team.empty,
         Some (ErrTeamDoesNotExist id)))
  /\ relations (fst (fst (GetTeamByID s id))) = relations s.
Proof.
  split; [| split; [| split]].
  - intros H. unfold GetTeamByID.
    destruct (Z.ltb_spec id 1); [reflexivity | lia].
  - intros s' team H.
    destruct (GetTeamByID_success _ _ _ _ H)
      as (Hid & row & rows & rest & F & A).
    destruct (addMoreInfoToTeams_one _ _ _ _ _ A) as (x & Ex & St & _).
    inversion Ex; subst x.
    assert (Hrow : In row (filter (fun x => ID x =? id) (teams s)))
      by (rewrite F; now left).
    apply filter_In in Hrow. destruct Hrow as [Hin Eid].
    apply Z.eqb_eq in Eid.
    split; [exact Hid | split].
    + apply (f_equal ID) in St. simpl in St. congruence.
    + exists row. split; [exact Hin |].
      rewrite St. destruct row; reflexivity.
  - intros Hid Hno Hf. unfold GetTeamByID.
    destruct (Z.ltb_spec id 1); [lia |].
    destruct (nextFault (faults s)) as [failed rest]. simpl in Hf. subst.
    rewrite filter_nothing; [reflexivity |].
    intros x Hx. rewrite Forall_forall in Hno.
    destruct (Z.eqb_spec (ID x) id); [exfalso; eapply Hno; eauto | reflexivity].
  - unfold GetTeamByID. destruct (id <? 1); [reflexivity |].
    destruct (nextFault (faults s)) as [failed rest].
    destruct failed; [reflexivity |].
    destruct (filter _ (teams s)) as [| row rows]; [reflexivity |].
    destruct (addMoreInfoToTeams _ _) as [[s2 teamSlice] err] eqn:A.
    destruct (addMoreInfoToTeams_one _ _ _ _ _ A) as (x & _ & _ & R).
    destruct err; exact R.
Qed.

Lemma GetTeamByID_outcomes_witness :
  GetTeamByID (sampleDB []) 9
  = (sampleDB [], Some Team.empty, Some (ErrTeamDoesNotExist 9)).
Proof.
  refine (proj1 (proj2 (proj2 (GetTeamByID_outcomes (sampleDB []) 9)))
            _ _ eq_refl).
  - intro C; discriminate C.
  - repeat constructor; discriminate.
Defined.

(** X10. [ReadOne] lists every member: when it returns without error, each
    stored user that has a member row in the team is among the members of
    the team it returns. *)
Theorem ReadOne_lists_every_member
  (s s' : Session) (team team' : Team.t) :
  ReadOne s team = (s', team', None) ->
  ID team' = ID team
  /\ forall u row,
       In u (users s) -> In row (team_members s) ->
       TeamMember.UserID row = user.ID u ->
       TeamMember.TeamID row = ID team ->
       exists m, In m (Members team')
                 /\ user.ID (TeamUser.User m) = user.ID u.
Proof.
  unfold ReadOne.
  destruct (GetTeamByID s (ID team)) as [[s1 found] e] eqn:G.
  destruct found as [x |];
    [| intros H; inversion H; subst; exfalso;
       eapply GetTeamByID_found; eauto].
  intros H. inversion H; subst. clear H.
  destruct (GetTeamByID_success _ _ _ _ G)
    as (Hid & r0 & rows0 & rest & F & A).
  assert (Hr0 : In r0 (filter (fun x => ID x =? ID team) (teams s)))
    by (rewrite F; now left).
  apply filter_In in Hr0. destruct Hr0 as [_ E0]. apply Z.eqb_eq in E0.
  destruct (addMoreInfoToTeams_members (withFaults s rest) [stored r0])
    as [C | (um & C & _)]; rewrite A in C; [discriminate |].
  injection C as Ht.
  split.
  { apply (f_equal (map ID)) in Ht. rewrite assignOwners_IDs in Ht.
    rewrite assignMembers_IDs in Ht. simpl in Ht. congruence. }
  intros u row Hu Hrow Eu Et.
  set (rows := filter (memberOrOwner (map ID [stored r0])
                         (map CreatedByID [stored r0]))
                 (joinRows (withFaults s rest))) in *.
  destruct (findUsers_spec rows) as (_ & Fr & Keys).
  destruct (joinRows_complete (withFaults s rest) u row Hu Hrow Eu)
    as [joined Hj].
  assert (Hin : In (u, Some (row, joined)) rows).
  { apply filter_In. split; [exact Hj |]. unfold memberOrOwner.
    apply orb_true_iff. left. apply hasID_In. left. simpl. congruence. }
  destruct (In_mapGet _ _ (Keys _ Hin)) as [v Hv]. simpl in Hv.
  apply mapGet_In in Hv.
  destruct (Fr _ _ Hv) as (row' & Hrow' & Ek & ->).
  apply filter_In in Hrow'. destruct Hrow' as [Hj' Hc'].
  destruct (memberOrOwner_team _ _ _ _ Hj' Hc') as (m' & j' & Es & Hteam).
  destruct row' as [u' x']. simpl in Es, Ek. subst x'.
  pose proof (assignMembers_Permutation (findUsers rows) [stored r0]) as P.
  assert (Hm : In (blankEmail (toTeamUser (u', Some (m', j'))))
                 (flat_map Members
                    (snd (assignMembers (findUsers rows) [stored r0])))).
  { eapply Permutation_in; [symmetry; exact P |].
    apply in_or_app. left.
    apply (in_map (fun e => blankEmail (snd e))
             (chosen [stored r0] (findUsers rows))
             (user.ID u, toTeamUser (u', Some (m', j')))).
    apply filter_In. split; [exact Hv |].
    cbv beta. apply hasID_In. exact Hteam. }
  exists (blankEmail (toTeamUser (u', Some (m', j')))).
  split; [| simpl; congruence].
  assert (Em : flat_map Members
                 (assignOwners um
                    (snd (assignMembers (findUsers rows) [stored r0])))
               = flat_map Members
                   (snd (assignMembers (findUsers rows) [stored r0]))).
  { rewrite !flat_map_concat_map. now rewrite assignOwners_Members. }
  rewrite <- Em in Hm.
  assert (Hm' : In (blankEmail (toTeamUser (u', Some (m', j'))))
                  (flat_map Members [team']))
    by (rewrite Ht; exact Hm).
  simpl in Hm'. now rewrite app_nil_r in Hm'.
Qed.

Lemma ReadOne_lists_every_member_witness :
  exists m,
    In m [TeamUser.mk (user.mkUser 1 "alice" "") true 1;
          TeamUser.mk (user.mkUser 2 "bob" "") false 1]
    /\ user.ID (TeamUser.User m) = user.ID bob.
Proof.
  exact (proj2 (ReadOne_lists_every_member (sampleDB []) (sampleDB [])
                  (Team.mk 1 "" "" 0 None [] 0 0) _ read_ops)
           bob (TeamMember.mk 2 1 "" 2 false 10)
           (or_intror (or_introl eq_refl)) (or_intror (or_introl eq_refl))
           eq_refl eq_refl).
Defined.

(** *** The creator *)

Lemma assignMembers_entries entries : forall ts k v',
  In (k, v') (fst (assignMembers entries ts)) ->
  exists v, In (k, v) entries /\ (v' = v \/ v' = blankEmail v).
Proof.
  induction entries as [| [a u] rest IH]; intros ts k v'; simpl;
    [intros [] |].
  destruct (hasID (TeamUser.TeamID u) (map ID ts)).
  - specialize (IH (appendMember (TeamUser.TeamID u) (blankEmail u) ts) k v').
    destruct (assignMembers rest _) as [rest' ts']. simpl in *.
    intros [H | H].
    + inversion H; subst. exists u. auto.
    + destruct (IH H) as (v & Hv & E). exists v. auto.
  - specialize (IH ts k v').
    destruct (assignMembers rest ts) as [rest' ts']. simpl in *.
    intros [H | H].
    + inversion H; subst. exists v'. auto.
    + destruct (IH H) as (v & Hv & E). exists v. auto.
Qed.

Lemma appendMember_CreatedBy id m ts :
  map CreatedBy (appendMember id m ts) = map CreatedBy ts.
Proof.
  induction ts as [| team rest IH]; [reflexivity |]. simpl.
  destruct ((ID team =? id) && negb (hasID id (map ID rest))); simpl;
    [reflexivity | now rewrite IH].
Qed.

Lemma assignMembers_CreatedBy entries : forall ts,
  map CreatedBy (snd (assignMembers entries ts)) = map CreatedBy ts.
Proof.
  induction entries as [| [k u] rest IH]; intros ts; [reflexivity |].
  simpl. destruct (hasID (TeamUser.TeamID u) (map ID ts)).
  - specialize (IH (appendMember (TeamUser.TeamID u) (blankEmail u) ts)).
    destruct (assignMembers rest _) as [rest' ts']. simpl in *.
    now rewrite IH, appendMember_CreatedBy.
  - specialize (IH ts).
    destruct (assignMembers rest ts) as [rest' ts']. exact IH.
Qed.

Lemma assignOwners_Forall (Q : Team.t -> Prop) usersMap ts :
  Forall
    (fun team =>
       Q team
       /\ forall tu, mapGet (CreatedByID team) usersMap = Some tu ->
                     Q (setCreatedBy (Some (TeamUser.User tu)) team))
    ts ->
  Forall Q (assignOwners usersMap ts).
Proof.
  induction ts as [| team rest IH]; intros H; [constructor |].
  inversion H as [| ? ? [Hq Hs] Hr]; subst. simpl. constructor; [| auto].
  destruct (hasID (ID team) (map ID rest)); [exact Hq |].
  destruct (mapGet (CreatedByID team) usersMap) eqn:G; [auto | exact Hq].
Qed.

Lemma no_creator_transfer (l ts : list Team.t) :
  map CreatedBy l = map CreatedBy ts ->
  Forall (fun team => CreatedBy team = None) ts ->
  Forall (fun team => CreatedBy team = None) l.
Proof.
  revert ts. induction l as [| x l IH]; intros ts M H; [constructor |].
  destruct ts as [| y ts]; [discriminate |].
  inversion M. inversion H; subst. constructor; [congruence | eauto].
Qed.

(** X11. Starting from teams whose creator is not filled in, whenever
    [addMoreInfoToTeams] fills in the creator of a team, it is a stored user
    whose id is the creator id of the team (with the user name of that
    user). *)
Theorem creator_is_the_user_with_the_creator_id
  (s : Session) (ts : list Team.t) :
  Forall (fun team => CreatedBy team = None) ts ->
  Forall
    (fun team =>
       forall u, CreatedBy team = Some u ->
         user.ID u = CreatedByID team
         /\ exists v, In v (users s) /\ user.ID v = user.ID u
                      /\ user.Username v = user.Username u)
    (snd (fst (addMoreInfoToTeams s ts))).
Proof.
  intros Hnone.
  assert (Triv : forall l : list Team.t,
            Forall (fun team => CreatedBy team = None) l ->
            Forall
              (fun team =>
                 forall u, CreatedBy team = Some u ->
                   user.ID u = CreatedByID team
                   /\ exists v, In v (users s) /\ user.ID v = user.ID u
                                /\ user.Username v = user.Username u) l).
  { intros l H. eapply Forall_impl; [| exact H].
    intros team E u C. congruence. }
  destruct (addMoreInfoToTeams_members s ts) as [-> | (um & -> & Eum)];
    [now apply Triv |].
  simpl.
  set (rows := filter (memberOrOwner (map ID ts) (map CreatedByID ts))
                 (joinRows s)) in *.
  assert (Hn' : Forall (fun team => CreatedBy team = None)
                  (snd (assignMembers (findUsers rows) ts))).
  { eapply no_creator_transfer; [| exact Hnone].
    apply assignMembers_CreatedBy. }
  apply assignOwners_Forall.
  eapply Forall_impl; [| exact Hn']. intros team E. split.
  - intros u C. congruence.
  - intros tu G u C. simpl in C. inversion C; subst u. clear C.
    apply mapGet_In in G. rewrite Eum in G.
    apply assignMembers_entries in G. destruct G as (v & Hv & Ev).
    destruct (findUsers_spec rows) as (_ & F & _).
    destruct (F _ _ Hv) as (row & Hrow & Ek & ->).
    apply filter_In in Hrow. destruct Hrow as [Hj _].
    apply joinRows_sound in Hj. destruct Hj as [Hu _].
    assert (K : user.ID (TeamUser.User tu) = user.ID (fst row)
                /\ user.Username (TeamUser.User tu)
                   = user.Username (fst row)).
    { destruct row as [u0 [[m j] |]]; destruct Ev as [-> | ->]; simpl; auto. }
    destruct K as [K1 K2]. simpl. split; [congruence |].
    exists (fst row). auto.
Qed.

Lemma creator_is_the_user_with_the_creator_id_witness :
  Forall
    (fun team =>
       forall u, CreatedBy team = Some u ->
         user.ID u = CreatedByID team
         /\ exists v, In v (users (sampleDB [])) /\ user.ID v = user.ID u
                      /\ user.Username v = user.Username u)
    (snd (fst (addMoreInfoToTeams (sampleDB []) [ops; dev]))).
Proof.
  apply creator_is_the_user_with_the_creator_id. repeat constructor.
Defined.

(** *** ReadAll *)

Lemma In_skipn {A : Type} n : forall (l : list A) x,
  In x (skipn n l) -> In x l.
Proof.
  induction n as [| n IH]; intros l x H; [exact H |].
  destruct l as [| a l]; [exact H |]. right. now apply IH.
Qed.

Lemma In_firstn {A : Type} n : forall (l : list A) x,
  In x (firstn n l) -> In x l.
Proof.
  induction n as [| n IH]; intros l x H; [destruct H |].
  destruct l as [| a l]; [destruct H |].
  destruct H as [-> | H]; [now left | right; now apply IH].
Qed.

Lemma skipn_length_le {A : Type} n : forall l : list A,
  (List.length (skipn n l) <= List.length l)%nat.
Proof.
  induction n as [| n IH]; intros l; [apply le_n |].
  destruct l as [| a l]; [apply le_n |]. simpl. apply le_S. apply IH.
Qed.

Lemma firstn_length_le' {A : Type} n : forall l : list A,
  (List.length (firstn n l) <= List.length l)%nat.
Proof.
  induction n as [| n IH]; intros l; [apply Nat.le_0_l |].
  destruct l as [| a l]; [apply le_n |]. simpl. apply le_n_S. apply IH.
Qed.

Lemma applyLimit_spec limit start rows :
  (forall x, In x (applyLimit limit start rows) -> In x rows)
  /\ (List.length (applyLimit limit start rows) <= List.length rows)%nat.
Proof.
  unfold applyLimit. destruct (0 <? limit); [| split; auto].
  split.
  - intros x H. apply In_firstn in H. now apply In_skipn in H.
  - eapply Nat.le_trans; [apply firstn_length_le' | apply skipn_length_le].
Qed.

Lemma teamsOf_In like s userID search x :
  In x (teamsOf like s userID search) ->
  exists row m,
    x = stored row /\ In row (teams s) /\ In m (team_members s)
    /\ TeamMember.TeamID m = ID row /\ TeamMember.UserID m = userID
    /\ like (Name row) ("%" ++ search ++ "%")%string = true.
Proof.
  unfold teamsOf. rewrite in_flat_map. intros (row & Hrow & H).
  apply in_map_iff in H. destruct H as (m & <- & Hm).
  apply filter_In in Hm. destruct Hm as [Hm C].
  apply andb_true_iff in C. destruct C as [C Hl].
  apply andb_true_iff in C. destruct C as [C1 C2].
  apply Z.eqb_eq in C1, C2. exists row, m. auto 10.
Qed.

Lemma map_stored_In (a b : list Team.t) x :
  map stored a = map stored b -> In x a ->
  exists y, In y b /\ stored x = stored y.
Proof.
  intros E H. apply (in_map stored) in H. rewrite E in H.
  apply in_map_iff in H. destruct H as (y & Ey & Hy). eauto.
Qed.

(** X12. What [Team.ReadAll] returns to a user: only teams the user has a
    member row in and whose name matches the search, each with the id and
    name of its stored row; the number of results is the length of the
    result and, when no error is returned, at most the number of matching
    teams reported beside it. No relation is changed. *)
Theorem ReadAll_returns_teams_of_the_user
  (like : string -> string -> bool) (s s' : Session) (u : user.User)
  (search : string) (page perPage : Z) (result : list Team.t)
  (n total : Z) (err : option Error) :
  ReadAll like s (AuthUser u) search page perPage
  = (s', Some result, n, total, err) ->
  n = Z.of_nat (List.length result)
  /\ Forall
       (fun team =>
          exists row m,
            In row (teams s) /\ ID row = ID team /\ Name row = Name team
            /\ like (Name row) ("%" ++ search ++ "%")%string = true
            /\ In m (team_members s)
            /\ TeamMember.TeamID m = ID team
            /\ TeamMember.UserID m = user.ID u)
       result
  /\ (err = None -> n <= total)
  /\ relations s' = relations s.
Proof.
  unfold ReadAll.
  destruct (getLimitFromPageIndex page perPage) as [limit start].
  destruct (nextFault (faults s)) as [f1 r1].
  destruct f1; [discriminate |].
  set (all := applyLimit limit start (teamsOf like s (GetID (AuthUser u)) search)).
  destruct (addMoreInfoToTeams_stored (withFaults s r1) all) as [C R].
  destruct (addMoreInfoToTeams (withFaults s r1) all) as [[s2 all'] e2].
  simpl in C, R.
  destruct e2; [discriminate |].
  destruct (applyLimit_spec limit start
              (teamsOf like s (GetID (AuthUser u)) search)) as [Sub Len].
  fold all in Sub, Len.
  assert (L : List.length all' = List.length all)
    by (rewrite <- (length_map stored all'), C; apply length_map).
  assert (Own : Forall
                  (fun team =>
                     exists row m,
                       In row (teams s) /\ ID row = ID team
                       /\ Name row = Name team
                       /\ like (Name row) ("%" ++ search ++ "%")%string = true
                       /\ In m (team_members s)
                       /\ TeamMember.TeamID m = ID team
                       /\ TeamMember.UserID m = user.ID u) all').
  { rewrite Forall_forall. intros team Ht.
    destruct (map_stored_In _ _ _ C Ht) as (y & Hy & Ey).
    apply Sub in Hy. apply teamsOf_In in Hy.
    destruct Hy as (row & m & -> & Hrow & Hm & Em & Eu & Hl).
    exists row, m.
    assert (ID team = ID row) by (apply (f_equal ID) in Ey; exact Ey).
    assert (Name team = Name row) by (apply (f_equal Name) in Ey; exact Ey).
    repeat split; auto; congruence. }
  destruct (nextFault (faults s2)) as [f3 r3].
  destruct f3; intros H; inversion H; subst; repeat split; auto;
    try discriminate.
  intros _. rewrite L. apply Nat2Z.inj_le. exact Len.
Qed.

Lemma ReadAll_returns_teams_of_the_user_witness :
  2 = Z.of_nat
        (List.length
           [Team.mk 1 "Ops" "" 1 (Some (user.mkUser 1 "alice" ""))
              [TeamUser.mk (user.mkUser 1 "alice" "") true 1] 10 10;
            Team.mk 2 "Dev" "" 2 (Some (user.mkUser 2 "bob" ""))
              [TeamUser.mk (user.mkUser 2 "bob" "") true 2] 11 11]).
Proof.
  exact (proj1 (ReadAll_returns_teams_of_the_user (fun _ _ => true)
                  (sampleDB []) (sampleDB []) bob "" 1 50
                  [Team.mk 1 "Ops" "" 1 (Some (user.mkUser 1 "alice" ""))
                     [TeamUser.mk (user.mkUser 1 "alice" "") true 1] 10 10;
                   Team.mk 2 "Dev" "" 2 (Some (user.mkUser 2 "bob" ""))
                     [TeamUser.mk (user.mkUser 2 "bob" "") true 2] 11 11]
                  2 2 None eq_refl)).
Defined.

(** *** Delete *)

Lemma filter_twice {A : Type} (f : A -> bool) (l : list A) :
  filter f (filter f l) = filter f l.
Proof.
  induction l as [| a l IH]; [reflexivity |]. simpl.
  destruct (f a) eqn:E; simpl; [rewrite E; now f_equal | exact IH].
Qed.

Lemma filter_all {A : Type} (f : A -> bool) (l : list A) :
  Forall (fun x => f x = true) l -> filter f l = l.
Proof.
  induction 1 as [| a l Ha _ IH]; [reflexivity |]. simpl.
  rewrite Ha. now f_equal.
Qed.

Lemma cascaded_relations id s s' :
  relations s' = relations s -> cascaded id s' = cascaded id s.
Proof.
  unfold relations, cascaded. intros H. injection H as -> -> -> -> ->.
  reflexivity.
Qed.

Lemma cascaded_twice id s s1 :
  relations s1 = cascaded id s -> cascaded id s1 = cascaded id s.
Proof.
  unfold relations, cascaded at 2. intros H.
  injection H as Hu Ht Hm Hn Hl. unfold cascaded.
  rewrite Hu, Ht, Hm, Hn, Hl. now rewrite !filter_twice.
Qed.

(** X13. [Delete] does not ask whether the team exists. When it returns
    without error on a store in which no row refers to the team, every
    relation is what it was; and deleting the team once more after a
    successful delete changes nothing. *)
Theorem Delete_again_changes_nothing
  (s s' : Session) (team : Team.t) :
  Delete s team = (s', None) ->
  (Forall (fun row => ID row <> ID team) (teams s) ->
   Forall (fun m => TeamMember.TeamID m <> ID team) (team_members s) ->
   Forall (fun r => TeamNamespace.TeamID r <> ID team) (team_namespaces s) ->
   Forall (fun r => TeamList.TeamID r <> ID team) (team_lists s) ->
   relations s' = relations s)
  /\ (forall s'', Delete s' team = (s'', None) ->
                  relations s'' = relations s').
Proof.
  intros H. apply Delete_cases in H.
  destruct H as [[_ R] | C]; [| discriminate]. split.
  - intros Ht Hm Hn Hl. rewrite R. unfold cascaded, relations.
    rewrite !filter_all; [reflexivity | | | |];
      (eapply Forall_impl; [| eassumption]); intros x Hx; cbv beta;
      apply negb_true_iff; apply Z.eqb_neq; exact Hx.
  - intros s'' H2. apply Delete_cases in H2.
    destruct H2 as [[_ R2] | C]; [| discriminate].
    rewrite R2, R. now apply cascaded_twice.
Qed.

Lemma Delete_again_changes_nothing_witness :
  relations (fst (Delete (fst (Delete (sampleDB []) ops)) ops))
  = relations (fst (Delete (sampleDB []) ops)).
Proof.
  exact (proj2 (Delete_again_changes_nothing (sampleDB [])
                  (fst (Delete (sampleDB []) ops)) ops eq_refl)
           (fst (Delete (fst (Delete (sampleDB []) ops)) ops)) eq_refl).
Defined.

(** X14. After a successful [Delete] the team cannot be read any more:
    [GetTeamByID] for its id returns [ErrTeamDoesNotExist] for that id, or
    the error of a failing statement, and never a nil error. *)
Theorem deleted_team_is_not_found
  (s s1 s2 : Session) (team : Team.t) (found : option Team.t)
  (err : option Error) :
  Delete s team = (s1, None) ->
  GetTeamByID s1 (ID team) = (s2, found, err) ->
  err = Some (ErrTeamDoesNotExist (ID team)) \/ err = Some ErrDB.
Proof.
  intros D. apply Delete_cases in D.
  destruct D as [[_ R] | C]; [| discriminate].
  unfold relations, cascaded in R. injection R as _ Ht _ _ _.
  unfold GetTeamByID. destruct (ID team <? 1).
  { intros H. inversion H. now left. }
  destruct (nextFault (faults s1)) as [failed rest].
  destruct failed; [intros H; inversion H; now right |].
  rewrite Ht, filter_nothing.
  - intros H. inversion H. now left.
  - intros x Hx. apply filter_In in Hx. destruct Hx as [_ Hx].
    apply negb_true_iff in Hx. exact Hx.
Qed.

Lemma deleted_team_is_not_found_witness :
  Some (ErrTeamDoesNotExist 1) = Some (ErrTeamDoesNotExist (ID ops))
  \/ Some (ErrTeamDoesNotExist 1) = Some ErrDB.
Proof.
  exact (deleted_team_is_not_found (sampleDB [])
           (fst (Delete (sampleDB []) ops))
           (fst (Delete (sampleDB []) ops))
           ops (Some Team.empty) (Some (ErrTeamDoesNotExist 1))
           eq_refl eq_refl).
Defined.

(** X15. By itself [Delete] is not all-or-nothing: when it returns an error
    the session holds the deletions of the statements before the failing
    one, that is nothing, or the team row, or the team row and the member
    rows, or these and the team-namespace rows; the users are untouched. *)
Theorem failed_Delete_leaves_a_prefix
  (s s' : Session) (team : Team.t) (e : Error) :
  Delete s team = (s', Some e) ->
  e = ErrDB /\ In (relations s') (deletedSoFar (ID team) s)
  /\ users s' = users s.
Proof.
  unfold Delete.
  destruct (deleteStep s _) as [s1 e1] eqn:E1.
  apply deleteStep_cases in E1.
  destruct E1 as [[-> R1] | [-> R1]].
  2:{ intros H. inversion H; subst. split; [reflexivity |].
      split; [now left | now injection R1]. }
  destruct (deleteStep s1 _) as [s2 e2] eqn:E2.
  apply deleteStep_cases in E2.
  destruct E2 as [[-> R2] | [-> R2]].
  2:{ intros H. inversion H; subst. split; [reflexivity |].
      split; [right; left; congruence |].
      injection R2 as -> _ _ _ _. now injection R1. }
  destruct (deleteStep s2 _) as [s3 e3] eqn:E3.
  apply deleteStep_cases in E3.
  destruct E3 as [[-> R3] | [-> R3]].
  2:{ intros H. inversion H; subst. split; [reflexivity |].
      split.
      - right; right; left. rewrite R3, R2.
        unfold relations in *. simpl in *.
        injection R1 as -> -> -> -> ->. reflexivity.
      - injection R3 as -> _ _ _ _. injection R2 as -> _ _ _ _.
        now injection R1. }
  intros E4. apply deleteStep_cases in E4.
  destruct E4 as [[C _] | [E R4]]; [discriminate |].
  inversion E; subst. split; [reflexivity |]. split.
  - right; right; right; left. rewrite R4, R3.
    unfold relations in *. simpl in *.
    injection R2 as -> -> -> -> ->. injection R1 as -> -> -> -> ->.
    reflexivity.
  - injection R4 as -> _ _ _ _. injection R3 as -> _ _ _ _.
    injection R2 as -> _ _ _ _. now injection R1.
Qed.

Lemma failed_Delete_leaves_a_prefix_witness :
  ErrDB = ErrDB
  /\ In (relations (fst (Delete (sampleDB [false; true]) ops)))
       (deletedSoFar (ID ops) (sampleDB [false; true]))
  /\ users (fst (Delete (sampleDB [false; true]) ops))
     = users (sampleDB [false; true]).
Proof.
  exact (failed_Delete_leaves_a_prefix (sampleDB [false; true])
           (fst (Delete (sampleDB [false; true]) ops)) ops ErrDB eq_refl).
Defined.

(** *** Update *)

Lemma updateTeam_cases s id team s' e :
  updateTeam s id team = (s', e) ->
  (e = Some ErrDB /\ relations s' = relations s)
  \/ (e = None
      /\ users s' = users s /\ team_members s' = team_members s
      /\ team_namespaces s' = team_namespaces s
      /\ team_lists s' = team_lists s
      /\ Forall2
           (fun r r' =>
              ID r' = ID r
              /\ (ID r <> id -> r' = r)
              /\ (ID r = id -> Name team <> "" -> Name r' = Name team))
           (teams s) (teams s')).
Proof.
  unfold updateTeam. destruct (nextFault (faults s)) as [failed rest].
  destruct failed; intros H; inversion H; subst; [now left |].
  right. simpl. repeat split; auto.
  induction (teams s) as [| r l IH]; simpl; constructor; auto.
  destruct (Z.eqb_spec (ID r) id) as [E | N]; simpl.
  - repeat split; [contradiction |]. intros _ Hn.
    destruct (String.eqb_spec (Name team) ""); [contradiction | reflexivity].
  - repeat split; auto. contradiction.
Qed.

Lemma GetTeamByID_relations s id :
  relations (fst (fst (GetTeamByID s id))) = relations s.
Proof.
  unfold GetTeamByID. destruct (id <? 1); [reflexivity |].
  destruct (nextFault (faults s)) as [failed rest].
  destruct failed; [reflexivity |].
  destruct (filter _ (teams s)) as [| row rows]; [reflexivity |].
  destruct (addMoreInfoToTeams _ _) as [[s2 teamSlice] err] eqn:A.
  destruct (addMoreInfoToTeams_one _ _ _ _ _ A) as (x & _ & _ & R).
  destruct err; exact R.
Qed.

Lemma GetTeamByID_row s id s' team :
  GetTeamByID s id = (s', Some team, None) ->
  ID team = id
  /\ exists row, In row (teams s) /\ ID row = id /\ Name team = Name row.
Proof.
  intros H.
  destruct (GetTeamByID_success _ _ _ _ H)
    as (Hid & row & rows & rest & F & A).
  destruct (addMoreInfoToTeams_one _ _ _ _ _ A) as (x & Ex & St & _).
  inversion Ex; subst x.
  assert (Hrow : In row (filter (fun x => ID x =? id) (teams s)))
    by (rewrite F; now left).
  apply filter_In in Hrow. destruct Hrow as [Hin Eid].
  apply Z.eqb_eq in Eid.
  assert (ID team = ID row) by (apply (f_equal ID) in St; exact St).
  assert (Name team = Name row) by (apply (f_equal Name) in St; exact St).
  split; [congruence |]. exists row. auto.
Qed.

Lemma Forall2_In_r {A B : Type} (R : A -> B -> Prop) l l' y :
  Forall2 R l l' -> In y l' -> exists x, In x l /\ R x y.
Proof.
  induction 1 as [| a b l l' Hab _ IH]; [intros [] |].
  intros [<- | H]; [exists a; split; [now left | exact Hab] |].
  destruct (IH H) as (x & Hx & Rx). exists x. split; [now right | exact Rx].
Qed.

(** X16. [Team.Update] refuses an empty name with
    [ErrTeamNameCannotBeEmpty] before it sends a statement. When it returns
    without error, the team it hands back has the id and the name of the
    request, the rows of the other teams are what they were, and users,
    members and grants are untouched. *)
Theorem Update_renames_one_team (s : Session) (team : Team.t) :
  (Name team = "" ->
   Update s team = (s, team, Some ErrTeamNameCannotBeEmpty))
  /\ (forall s' team',
        Update s team = (s', team', None) ->
        ID team' = ID team /\ Name team' = Name team
        /\ users s' = users s /\ team_members s' = team_members s
        /\ team_namespaces s' = team_namespaces s
        /\ team_lists s' = team_lists s
        /\ Forall2 (fun r r' => ID r' = ID r /\ (ID r <> ID team -> r' = r))
             (teams s) (teams s')).
Proof.
  split.
  - intros E. unfold Update. now rewrite E.
  - intros s' team'. unfold Update.
    destruct (String.eqb_spec (Name team) "") as [E | N]; [discriminate |].
    pose proof (GetTeamByID_relations s (ID team)) as R1.
    destruct (GetTeamByID s (ID team)) as [[s1 f1] e1]. simpl in R1.
    destruct e1; [discriminate |].
    destruct (updateTeam s1 (ID team) team) as [s2 e2] eqn:U.
    apply updateTeam_cases in U.
    destruct U as [[-> _] | (-> & Uu & Um & Un & Ul & Ut)]; [discriminate |].
    pose proof (GetTeamByID_relations s2 (ID team)) as R3.
    destruct (GetTeamByID s2 (ID team)) as [[s3 f3] e3] eqn:G. simpl in R3.
    destruct f3 as [x |]; intros H; inversion H; subst;
      [| exfalso; eapply GetTeamByID_found; eauto].
    apply GetTeamByID_row in G. destruct G as (Ex & row & Hrow & Erow & En).
    unfold relations in R1, R3.
    injection R1 as Ru1 Rt1 Rm1 Rn1 Rl1.
    injection R3 as Ru3 Rt3 Rm3 Rn3 Rl3.
    destruct (Forall2_In_r _ _ _ _ Ut Hrow) as (r0 & _ & I0 & _ & Nm).
    repeat split; try congruence.
    + rewrite En. apply Nm; [congruence | exact N].
    + rewrite Rt3, <- Rt1.
      eapply Forall2_impl; [| exact Ut]. intros a b (Ia & Ka & _). auto.
Qed.

Lemma Update_renames_one_team_witness :
  Name (snd (fst (Update (sampleDB []) (Team.mk 1 "Platform" "" 0 None [] 0 0))))
  = "Platform".
Proof.
  exact (proj1 (proj2 (proj2 (Update_renames_one_team (sampleDB [])
                                (Team.mk 1 "Platform" "" 0 None [] 0 0))
                         (fst (fst (Update (sampleDB [])
                                      (Team.mk 1 "Platform" "" 0 None [] 0 0))))
                         (snd (fst (Update (sampleDB [])
                                      (Team.mk 1 "Platform" "" 0 None [] 0 0))))
                         eq_refl))).
Defined.

Lemma GetTeamByID_of_a_stored_team s id r s' found i :
  In r (teams s) -> ID r = id -> 1 <= id ->
  GetTeamByID s id = (s', found, Some (ErrTeamDoesNotExist i)) -> False.
Proof.
  intros Hr Er Hid. unfold GetTeamByID.
  destruct (Z.ltb_spec id 1) as [Lt | Ge]; [lia |].
  destruct (nextFault (faults s)) as [failed rest].
  destruct failed; [discriminate |].
  destruct (filter (fun team => ID team =? id) (teams s)) as [| row rows] eqn:F.
  - assert (C : In r (filter (fun team => ID team =? id) (teams s)))
      by (apply filter_In; split; [exact Hr | now apply Z.eqb_eq]).
    rewrite F in C. destruct C.
  - unfold addMoreInfoToTeams.
    destruct (nextFault (faults (withFaults s rest))) as [f2 r2].
    destruct f2; [discriminate |].
    destruct (assignMembers _ _) as [um ts']. discriminate.
Qed.

(** X17. [Team.Update] on a team that does not exist: whenever it returns
    [ErrTeamDoesNotExist], every relation is what it was and the receiver
    is unchanged. *)
Theorem Update_of_a_missing_team_writes_nothing
  (s s' : Session) (team team' : Team.t) (i : Z) :
  Update s team = (s', team', Some (ErrTeamDoesNotExist i)) ->
  relations s' = relations s /\ team' = team.
Proof.
  unfold Update.
  destruct (String.eqb (Name team) ""); [discriminate |].
  pose proof (GetTeamByID_relations s (ID team)) as R1.
  destruct (GetTeamByID s (ID team)) as [[s1 f1] e1] eqn:G1. simpl in R1.
  destruct e1 as [e1 |]; [intros H; inversion H; subst; auto |].
  destruct (updateTeam s1 (ID team) team) as [s2 e2] eqn:U.
  apply updateTeam_cases in U.
  destruct U as [[-> _] | (-> & Uu & Um & Un & Ul & Ut)]; [discriminate |].
  destruct f1 as [x |]; [| exfalso; eapply GetTeamByID_found; eauto].
  destruct (GetTeamByID_success _ _ _ _ G1) as (Hid & _).
  apply GetTeamByID_row in G1. destruct G1 as (Ex & row & Hrow & Erow & _).
  unfold relations in R1. injection R1 as _ Rt1 _ _ _.
  rewrite Rt1 in Ut.
  assert (Hex : exists r', In r' (teams s2) /\ ID r' = ID team).
  { clear - Ut Hrow Erow. induction Ut as [| a b l l' (Ia & _) _ IH].
    - destruct Hrow.
    - destruct Hrow as [-> | Hrow].
      + exists b. split; [now left | congruence].
      + destruct (IH Hrow) as (r' & Hr' & Er'). exists r'.
        split; [now right | exact Er']. }
  destruct Hex as (r' & Hr' & Er').
  destruct (GetTeamByID s2 (ID team)) as [[s3 f3] e3] eqn:G3.
  intros H. exfalso.
  assert (e3 = Some (ErrTeamDoesNotExist i))
    by (destruct f3; inversion H; reflexivity).
  subst e3. eapply GetTeamByID_of_a_stored_team; eauto.
Qed.

Lemma Update_of_a_missing_team_writes_nothing_witness :
  relations (fst (fst (Update (sampleDB [])
                         (Team.mk 9 "Platform" "" 0 None [] 0 0))))
  = relations (sampleDB [])
  /\ snd (fst (Update (sampleDB []) (Team.mk 9 "Platform" "" 0 None [] 0 0)))
     = Team.mk 9 "Platform" "" 0 None [] 0 0.
Proof.
  exact (Update_of_a_missing_team_writes_nothing (sampleDB [])
           (fst (fst (Update (sampleDB [])
                        (Team.mk 9 "Platform" "" 0 None [] 0 0))))
           (Team.mk 9 "Platform" "" 0 None [] 0 0)
           (snd (fst (Update (sampleDB [])
                        (Team.mk 9 "Platform" "" 0 None [] 0 0))))
           9 eq_refl).
Defined.

End TeamFacts.

(** * Properties of the read-all handler *)

Module HandlerFacts.
Import Handler.

(** ** C3: the pagination parameters *)

Lemma Atoi_nonempty s n : Atoi s = Some n -> String.eqb s "" = false.
Proof. destruct s; [discriminate | reflexivity]. Qed.

Lemma parsePerPage_parsed max perPage n :
  Atoi perPage = Some n ->
  parsePerPage max perPage
  = (let perPageNumber := if n =? 0 then max else n in
     if perPageNumber <? 1
     then inl (NewHTTPError 400 "Per page amount cannot be negative.")
     else inr (if max <? perPageNumber then max else perPageNumber)).
Proof.
  intros H. unfold parsePerPage.
  now rewrite (Atoi_nonempty _ _ H), H.
Qed.

Lemma parsePage_parsed page p :
  Atoi page = Some p ->
  parsePage page
  = (if p <? 0
     then inl (NewHTTPError 400 "Page number cannot be negative.")
     else inr p).
Proof.
  intros H. unfold parsePage.
  now rewrite (Atoi_nonempty _ _ H), H.
Qed.

(** With authentication and binding done, the handler answers with the
    error of the first parameter that is refused, and otherwise responds
    for the page number and page size the parameters gave. *)
Lemma ReadAllWeb_parameters (A R : Type)
  (ReadAll : A -> string -> Z -> Z -> R * Z * Z * option Error)
  (max : Z) (a : A) (page perPage search : string) :
  ReadAllWeb A R ReadAll max (Some a) true page perPage search
  = match parsePage page with
    | inl e => Failed e
    | inr pageNumber =>
        match parsePerPage max perPage with
        | inl e => Failed e
        | inr perPageNumber =>
            respond A R ReadAll a search pageNumber perPageNumber
        end
    end.
Proof. reflexivity. Qed.

(** C3 (counterexample). Page 0 is below 1 and is accepted: the handler
    refuses negative page numbers only. *)
Lemma page_zero_is_accepted : ~ pageBelowOneIsRejected.
Proof.
  intros C. destruct (C "0" 0 eq_refl eq_refl) as [e [H _]].
  discriminate H.
Qed.

(** A request for page 0 is answered with status 200 and the result. *)
Example page_zero_request :
  ReadAllWeb unit (list Z)
    (fun _ _ pageNumber perPageNumber =>
       ([pageNumber; perPageNumber], 2, 120, None))
    50 (Some tt) true "0" "" ""
  = JSON "3" "2" [0; 50].
Proof. reflexivity. Qed.

(** C3 (as amended). Let the configured maximum be at least 1. A [per_page]
    that is missing or zero gives the maximum, one above the maximum gives
    the maximum, one from 1 to the maximum is taken as it is, and a negative
    one is refused with a 400. A negative [page] is refused with a 400; a
    missing [page] is page 1 and every [page] from 0 on is accepted. A
    refused parameter is the handler's answer. *)
Theorem pagination_parameters (max : Z) :
  1 <= max ->
  parsePerPage max "" = inr max
  /\ (forall perPage n, Atoi perPage = Some n ->
        (n = 0 -> parsePerPage max perPage = inr max)
        /\ (max < n -> parsePerPage max perPage = inr max)
        /\ (1 <= n <= max -> parsePerPage max perPage = inr n)
        /\ (n < 0 ->
            exists e, parsePerPage max perPage = inl e /\ Code e = 400))
  /\ parsePage "" = inr 1
  /\ (forall page p, Atoi page = Some p ->
        (p < 0 -> exists e, parsePage page = inl e /\ Code e = 400)
        /\ (0 <= p -> parsePage page = inr p))
  /\ (forall (A R : Type) ReadAll (a : A) page perPage search e,
        parsePage page = inl e
        \/ (parsePerPage max perPage = inl e
            /\ exists p, parsePage page = inr p) ->
        ReadAllWeb A R ReadAll max (Some a) true page perPage search
        = Failed e).
Proof.
  intros Hmax. split; [| split; [| split; [| split]]].
  - unfold parsePerPage. simpl.
    destruct (Z.ltb_spec max 1); [lia |].
    now rewrite Z.ltb_irrefl.
  - intros perPage n H. rewrite (parsePerPage_parsed _ _ _ H). cbv zeta.
    repeat split.
    + intros ->. simpl. destruct (Z.ltb_spec max 1); [lia |].
      now rewrite Z.ltb_irrefl.
    + intros Hn. destruct (Z.eqb_spec n 0); [lia |].
      destruct (Z.ltb_spec n 1); [lia |].
      destruct (Z.ltb_spec max n); [reflexivity | lia].
    + intros Hn. destruct (Z.eqb_spec n 0); [lia |].
      destruct (Z.ltb_spec n 1); [lia |].
      destruct (Z.ltb_spec max n); [lia | reflexivity].
    + intros Hn. destruct (Z.eqb_spec n 0); [lia |].
      destruct (Z.ltb_spec n 1); [| lia]. eauto.
  - reflexivity.
  - intros page p H. rewrite (parsePage_parsed _ _ H). split; intros Hp.
    + destruct (Z.ltb_spec p 0); [eauto | lia].
    + destruct (Z.ltb_spec p 0); [lia | reflexivity].
  - intros A R ReadAll a page perPage search e H.
    rewrite ReadAllWeb_parameters.
    destruct H as [-> | [H [p ->]]]; [reflexivity | now rewrite H].
Qed.

Lemma pagination_parameters_witness :
  parsePerPage 50 "" = inr 50
  /\ parsePerPage 50 "70" = inr 50
  /\ parsePage "0" = inr 0.
Proof.
  assert (H : 1 <= 50) by (intro C; discriminate C).
  destruct (pagination_parameters 50 H) as (W1 & W2 & _ & W4 & _).
  split; [exact W1 | split].
  - apply (proj1 (proj2 (W2 "70" 70 eq_refl))). reflexivity.
  - apply (proj2 (W4 "0" 0 eq_refl)). intro C; discriminate C.
Defined.

(** ** C4: the number of pages *)

(** *** Binary digits *)

Lemma digits2_pos_size p : digits2_pos p = Pos.size p.
Proof. induction p; simpl; congruence. Qed.

Lemma digits2_pos_bounds p :
  2 ^ (Zpos (digits2_pos p) - 1) <= Zpos p < 2 ^ Zpos (digits2_pos p).
Proof.
  rewrite digits2_pos_size. split.
  - pose proof (Pos.size_le p) as H.
    apply Pos2Z.pos_le_pos in H. rewrite Pos2Z.inj_pow in H.
    replace (Zpos (Pos.size p)) with (Zpos (Pos.size p) - 1 + 1) in H by lia.
    rewrite Z.pow_add_r, Z.pow_1_r in H by lia.
    change (Zpos p~0) with (2 * Zpos p) in H. lia.
  - pose proof (Pos.size_gt p) as H.
    apply Pos2Z.pos_lt_pos in H. now rewrite Pos2Z.inj_pow in H.
Qed.

Lemma digits2_pos_unique p n :
  2 ^ (n - 1) <= Zpos p < 2 ^ n -> Zpos (digits2_pos p) = n.
Proof.
  intros [Hl Hu]. pose proof (digits2_pos_bounds p) as [Bl Bu].
  set (d := Zpos (digits2_pos p)) in *.
  assert (0 < n).
  { destruct (Z.ltb_spec 0 n); [assumption |].
    replace (2 ^ n) with (if n =? 0 then 1 else 0) in Hu; [destruct (n =? 0); lia |].
    destruct (Z.eqb_spec n 0) as [-> |]; [reflexivity |].
    symmetry. apply Z.pow_neg_r. lia. }
  assert (d <= n).
  { destruct (Z.leb_spec d n); [assumption |]. exfalso.
    assert (2 ^ n <= 2 ^ (d - 1)) by (apply Z.pow_le_mono_r; lia). lia. }
  assert (n <= d).
  { destruct (Z.leb_spec n d); [assumption |]. exfalso.
    assert (2 ^ d <= 2 ^ (n - 1)) by (apply Z.pow_le_mono_r; lia). lia. }
  lia.
Qed.

Lemma iter_xO_value k : forall p, Zpos (Pos.iter xO p k) = Zpos p * 2 ^ Zpos k.
Proof.
  induction k using Pos.peano_ind; intros p.
  - simpl. lia.
  - rewrite Pos.iter_succ, Pos2Z.inj_xO, IHk, Pos2Z.inj_succ.
    rewrite Z.pow_succ_r by lia. lia.
Qed.

(** *** Rounding a mantissa of 53 or 54 bits *)

Lemma fexp_normal d e :
  -1074 <= d + e - 53 -> fexp 53 1024 (d + e) = d + e - 53.
Proof. unfold fexp, emin. lia. Qed.

Lemma loc_of_record_of_loc m l :
  loc_of_shr_record (shr_record_of_loc m l) = l.
Proof. destruct l as [| []]; reflexivity. Qed.

Lemma shr_m_record_of_loc m l : shr_m (shr_record_of_loc m l) = m.
Proof. destruct l as [| []]; reflexivity. Qed.

Lemma shr_fexp_53 q e l :
  Zpos (digits2_pos q) = 53 -> -1074 <= e ->
  shr_fexp 53 1024 (Zpos q) e l = (shr_record_of_loc (Zpos q) l, e).
Proof.
  intros D He. unfold shr_fexp. simpl Zdigits2. rewrite D.
  rewrite fexp_normal by lia.
  replace (53 + e - 53 - e) with 0 by lia. reflexivity.
Qed.

Lemma shr_fexp_54 q e l :
  Zpos (digits2_pos q) = 54 -> -1074 <= e ->
  shr_fexp 53 1024 (Zpos q) e l
  = (shr_1 (shr_record_of_loc (Zpos q) l), e + 1).
Proof.
  intros D He. unfold shr_fexp. simpl Zdigits2. rewrite D.
  rewrite fexp_normal by lia.
  replace (54 + e - 53 - e) with 1 by lia. reflexivity.
Qed.

Lemma second_round s M e :
  2 ^ 52 <= M <= 2 ^ 53 -> -1074 <= e <= 970 ->
  match shr_m (fst (shr_fexp 53 1024 M e loc_Exact)) with
  | Z0 => S754_zero s
  | Zpos m =>
      if snd (shr_fexp 53 1024 M e loc_Exact) <=? 1024 - 53
      then S754_finite s m (snd (shr_fexp 53 1024 M e loc_Exact))
      else S754_infinity s
  | Zneg _ => S754_nan
  end = renorm s M e.
Proof.
  intros HM He. destruct M as [| m |]; try lia.
  unfold renorm. destruct (Z.ltb_spec (Zpos m) (2 ^ 53)) as [Lt | Ge].
  - rewrite shr_fexp_53; [| apply digits2_pos_unique; simpl; lia | lia].
    simpl. destruct (Z.leb_spec e 971); [reflexivity | lia].
  - assert (E : Zpos m = 2 ^ 53) by lia.
    assert (m = 9007199254740992%positive) by (apply Pos2Z.inj; exact E).
    subst m. rewrite shr_fexp_54; [| reflexivity | lia].
    simpl. destruct (Z.leb_spec (e + 1) 971); [reflexivity | lia].
Qed.

Lemma rne_bounds m l :
  m <= round_nearest_even m l <= m + 1.
Proof.
  destruct l as [| []]; simpl; try lia. destruct (Z.even m); lia.
Qed.

Lemma round_aux_53 s q e l :
  Zpos (digits2_pos q) = 53 -> -1074 <= e <= 970 ->
  binary_round_aux 53 1024 s (Zpos q) e l
  = renorm s (round_nearest_even (Zpos q) l) e.
Proof.
  intros D He. unfold binary_round_aux.
  rewrite shr_fexp_53 by lia.
  rewrite shr_m_record_of_loc, loc_of_record_of_loc.
  pose proof (digits2_pos_bounds q) as B. rewrite D in B.
  pose proof (rne_bounds (Zpos q) l) as R.
  pose proof (second_round s (round_nearest_even (Zpos q) l) e) as S2.
  destruct (shr_fexp 53 1024 (round_nearest_even (Zpos q) l) e loc_Exact)
    as [mrs e''].
  simpl in S2. apply S2; [| lia]. change (53 - 1) with 52 in B. lia.
Qed.

Lemma shr_1_m q l :
  0 <= q -> shr_m (shr_1 (shr_record_of_loc q l)) = q / 2.
Proof.
  intros Hq.
  assert (H : forall r s, shr_m (shr_1 (Build_shr_record q r s)) = q / 2).
  { intros r s. destruct q as [| [p | p |] |]; cbn [shr_1 shr_m]; try lia.
    - reflexivity.
    - apply Z.div_unique with (r := 1); lia.
    - apply Z.div_unique with (r := 0); lia.
    - reflexivity. }
  destruct l as [| []]; apply H.
Qed.

Lemma round_aux_54 s q e l :
  Zpos (digits2_pos q) = 54 -> -1074 <= e <= 969 ->
  binary_round_aux 53 1024 s (Zpos q) e l
  = renorm s (round_nearest_even (Zpos q / 2) (shiftedLoc (Zpos q) l))
      (e + 1).
Proof.
  intros D He. unfold binary_round_aux.
  rewrite shr_fexp_54 by lia.
  rewrite shr_1_m by lia. fold (shiftedLoc (Zpos q) l).
  pose proof (digits2_pos_bounds q) as B. rewrite D in B.
  change (54 - 1) with 53 in B.
  assert (2 ^ 52 <= Zpos q / 2 < 2 ^ 53).
  { split.
    - apply Z.div_le_lower_bound; [lia |].
      change (2 * 2 ^ 52) with (2 ^ 53). lia.
    - apply Z.div_lt_upper_bound; [lia |].
      change (2 * 2 ^ 53) with (2 ^ 54). lia. }
  pose proof (rne_bounds (Zpos q / 2) (shiftedLoc (Zpos q) l)) as R.
  pose proof (second_round s
                (round_nearest_even (Zpos q / 2) (shiftedLoc (Zpos q) l))
                (e + 1)) as S2.
  destruct (shr_fexp 53 1024
              (round_nearest_even (Zpos q / 2) (shiftedLoc (Zpos q) l))
              (e + 1) loc_Exact) as [mrs e''].
  simpl in S2. apply S2; lia.
Qed.

(** *** The float of a positive integer below [2^53] *)

Lemma renorm_small s m e :
  Zpos m < 2 ^ 53 -> renorm s (Zpos m) e = S754_finite s m e.
Proof.
  intros H. unfold renorm.
  destruct (Z.ltb_spec (Zpos m) (2 ^ 53)); [reflexivity | lia].
Qed.

Lemma toFloat64_pos n :
  1 <= n < 2 ^ 53 ->
  exists m e, toFloat64 n = S754_finite false m e /\ normalOf n m e.
Proof.
  intros Hn. destruct n as [| p |]; try lia.
  unfold toFloat64, binary_normalize, binary_round.
  pose proof (digits2_pos_bounds p) as B.
  set (d := Zpos (digits2_pos p)) in *.
  assert (Hd : 1 <= d <= 53).
  { split; [unfold d; lia |].
    destruct (Z.leb_spec d 53); [assumption |]. exfalso.
    assert (2 ^ 53 <= 2 ^ (d - 1)) by (apply Z.pow_le_mono_r; lia). lia. }
  rewrite fexp_normal by lia.
  unfold shl_align.
  destruct (d + 0 - 53 - 0) as [| k | k] eqn:K; try lia.
  - assert (d = 53) by lia.
    rewrite round_aux_53; [| fold d; lia | lia].
    simpl round_nearest_even. rewrite renorm_small by lia.
    exists p, 0. split; [reflexivity |].
    unfold normalOf. fold d. simpl. lia.
  - assert (Kd : Zpos k = 53 - d) by lia.
    assert (V : Zpos (Pos.iter xO p k) = Zpos p * 2 ^ (53 - d))
      by (rewrite iter_xO_value; now rewrite Kd).
    assert (P : 2 ^ (d - 1) * 2 ^ (53 - d) = 2 ^ 52)
      by (rewrite <- Z.pow_add_r by lia; f_equal; lia).
    assert (Q : 2 ^ d * 2 ^ (53 - d) = 2 ^ 53)
      by (rewrite <- Z.pow_add_r by lia; f_equal; lia).
    assert (0 < 2 ^ (53 - d)) by (apply Z.pow_pos_nonneg; lia).
    assert (Bm : 2 ^ 52 <= Zpos (Pos.iter xO p k) < 2 ^ 53) by nia.
    assert (Dm : Zpos (digits2_pos (Pos.iter xO p k)) = 53)
      by (apply digits2_pos_unique; exact Bm).
    rewrite round_aux_53; [| exact Dm | lia].
    simpl round_nearest_even. rewrite renorm_small by lia.
    exists (Pos.iter xO p k), (d + 0 - 53). split; [reflexivity |].
    unfold normalOf. repeat split; try lia.
    rewrite V. f_equal. f_equal. lia.
Qed.

(** *** The location of a remainder *)

Lemma new_location_spec B r :
  0 < B -> 0 <= r < B ->
  new_location B r
  = if r =? 0 then loc_Exact else loc_Inexact (2 * r ?= B).
Proof.
  intros HB Hr. unfold new_location.
  destruct (Z.even B) eqn:E.
  - reflexivity.
  - unfold new_location_odd. destruct (r =? 0); [reflexivity |].
    f_equal.
    assert (O : Z.odd B = true) by (rewrite <- Z.negb_even, E; reflexivity).
    apply Z.odd_spec in O. destruct O as [c Hc].
    destruct (Z.compare_spec (2 * r + 1) B);
      destruct (Z.compare_spec (2 * r) B); try reflexivity; lia.
Qed.

Lemma nearest_rne A B :
  0 < B -> 0 <= A ->
  nearest A B (round_nearest_even (A / B) (new_location B (A mod B))).
Proof.
  intros HB HA. pose proof (Z.mod_pos_bound A B HB) as Hr.
  rewrite new_location_spec by lia.
  unfold nearest. destruct (Z.eqb_spec (A mod B) 0) as [E | N].
  - cbn [round_nearest_even]. lia.
  - destruct (Z.compare_spec (2 * (A mod B)) B); cbn [round_nearest_even];
      try destruct (Z.even (A / B)); lia.
Qed.

Lemma nearest_shifted A B :
  0 < B -> 0 <= A ->
  nearest A (2 * B)
    (round_nearest_even (A / B / 2)
       (shiftedLoc (A / B) (new_location B (A mod B)))).
Proof.
  intros HB HA. pose proof (Z.mod_pos_bound A B HB) as Hr.
  assert (Hq : 0 <= A / B) by (apply Z.div_pos; lia).
  pose proof (Z.div_mod A B ltac:(lia)) as DM.
  pose proof (Z.div_mod (A / B) 2 ltac:(lia)) as DM2.
  pose proof (Z.mod_pos_bound (A / B) 2 ltac:(lia)) as Hr2.
  assert (Q2 : A / (2 * B) = A / B / 2)
    by (rewrite Z.mul_comm; symmetry; apply Z.div_div; lia).
  assert (R2 : A mod (2 * B) = (A / B) mod 2 * B + A mod B).
  { symmetry. apply Z.mod_unique with (q := A / B / 2); nia. }
  unfold nearest. rewrite Q2, R2.
  rewrite new_location_spec by lia.
  unfold shiftedLoc.
  set (q := A / B) in *. set (r := A mod B) in *.
  assert (Odd : forall rb sb,
            shr_1 (Build_shr_record q rb sb)
            = Build_shr_record (q / 2) (Z.odd q) (rb || sb)).
  { intros rb sb. destruct q as [| [p | p |] |]; try lia;
      cbn [shr_1 Z.odd]; f_equal.
    - apply Z.div_unique with (r := 1); lia.
    - apply Z.div_unique with (r := 0); lia. }
  assert (Par : q mod 2 = if Z.odd q then 1 else 0).
  { rewrite Zmod_odd. reflexivity. }
  destruct (Z.eqb_spec r 0) as [E | N].
  - cbn [shr_record_of_loc]. rewrite Odd.
    destruct (Z.odd q);
      cbn [loc_of_shr_record round_nearest_even orb];
      try destruct (Z.even (q / 2)); lia.
  - destruct (Z.compare_spec (2 * r) B); cbn [shr_record_of_loc];
      rewrite Odd; destruct (Z.odd q);
      cbn [loc_of_shr_record round_nearest_even orb];
      try destruct (Z.even (q / 2)); lia.
Qed.

(** *** The ceiling of a quotient *)

Lemma ceilDiv_spec a b :
  0 < b -> (ceilDiv a b - 1) * b < a <= ceilDiv a b * b.
Proof.
  intros Hb. unfold ceilDiv.
  pose proof (Z.div_mod (a + b - 1) b ltac:(lia)) as DM.
  pose proof (Z.mod_pos_bound (a + b - 1) b Hb) as R.
  nia.
Qed.

Lemma ceilDiv_unique a b k :
  0 < b -> (k - 1) * b < a <= k * b -> ceilDiv a b = k.
Proof.
  intros Hb H. pose proof (ceilDiv_spec a b Hb) as S. nia.
Qed.

(** The rounded mantissa of [a / b] at scale [2^g] lies between the scaled
    neighbours of the ceiling. *)
Lemma nearest_ceiling a b g c M :
  1 <= a < 2 ^ 53 -> 1 <= b -> 0 <= g -> 0 < c ->
  nearest (a * 2 ^ g * c) (b * c) M ->
  2 ^ 52 <= (a * 2 ^ g * c) / (b * c) ->
  (ceilDiv a b - 1) * 2 ^ g < M <= ceilDiv a b * 2 ^ g.
Proof.
  intros Ha Hb Hg Hc (Hfl & Hex & Hup) Hbig.
  rewrite Z.div_mul_cancel_r in Hfl, Hex, Hup, Hbig by lia.
  rewrite Z.mul_mod_distr_r in Hex, Hup by lia.
  pose proof (ceilDiv_spec a b ltac:(lia)) as K.
  set (k := ceilDiv a b) in *.
  assert (HP : 0 < 2 ^ g) by (apply Z.pow_pos_nonneg; lia).
  set (P := 2 ^ g) in *.
  pose proof (Z.div_mod (a * P) b ltac:(lia)) as DM.
  pose proof (Z.mod_pos_bound (a * P) b ltac:(lia)) as R.
  set (q := a * P / b) in *. set (r := (a * P) mod b) in *.
  assert (X1 : a * P <= k * P * b) by nia.
  assert (X2 : (k - 1) * P * b + P <= a * P) by nia.
  split.
  - (* lower bound *)
    assert (Q : (k - 1) * P <= q) by nia.
    destruct (Z.eq_dec q ((k - 1) * P)) as [E | N]; [| lia].
    assert (P <= r) by nia.
    assert (b < 2 * P) by nia.
    assert (M = q + 1) by (apply Hup; nia). lia.
  - (* upper bound *)
    destruct (Z_lt_le_dec q (k * P)) as [L | G]; [lia |].
    assert (q = k * P) by nia.
    assert (r = 0) by nia.
    assert (M = q) by (apply Hex; nia). lia.
Qed.

(** *** The quotient of two integers below [2^53] *)

Lemma div_eucl_div_mod A B :
  Z.div_eucl A B = (A / B, A mod B).
Proof. unfold Z.div, Z.modulo. now destruct (Z.div_eucl A B). Qed.

Lemma SFdiv_normal a b m1 e1 m2 e2 :
  1 <= a < 2 ^ 53 -> 1 <= b < 2 ^ 53 ->
  normalOf a m1 e1 -> normalOf b m2 e2 ->
  exists M E,
    SFdiv 53 1024 (S754_finite false m1 e1) (S754_finite false m2 e2)
    = renorm false M E
    /\ 2 ^ 52 <= M <= 2 ^ 53 /\ -105 <= E <= 0
    /\ (ceilDiv a b - 1) * 2 ^ (- E) < M <= ceilDiv a b * 2 ^ (- E).
Proof.
  intros Ha Hb (D1 & He1 & V1) (D2 & He2 & V2).
  unfold SFdiv, SFdiv_core_binary. cbn [Zdigits2 xorb].
  rewrite D1, D2.
  assert (He' : Z.min (fexp 53 1024 (53 + e1 - (53 + e2))) (e1 - e2)
                = e1 - e2 - 53) by (unfold fexp, emin; lia).
  rewrite He'.
  replace (e1 - e2 - (e1 - e2 - 53)) with 53 by lia.
  cbv iota. rewrite Z.shiftl_mul_pow2 by lia.
  rewrite div_eucl_div_mod.
  set (A := Zpos m1 * 2 ^ 53). set (B := Zpos m2).
  pose proof (digits2_pos_bounds m1) as B1. rewrite D1 in B1.
  pose proof (digits2_pos_bounds m2) as B2. rewrite D2 in B2.
  change (53 - 1) with 52 in B1, B2. fold B in B2, V2.
  assert (Hq : 2 ^ 52 <= A / B < 2 ^ 54).
  { unfold A. split.
    - apply Z.div_le_lower_bound; [lia |]. nia.
    - apply Z.div_lt_upper_bound; [lia |].
      change (2 ^ 54) with (2 * 2 ^ 53). nia. }
  destruct (A / B) as [| q |] eqn:Q; try lia.
  assert (P1 : 0 < 2 ^ (- e1)) by (apply Z.pow_pos_nonneg; lia).
  assert (P2 : 0 < 2 ^ (- e2)) by (apply Z.pow_pos_nonneg; lia).
  destruct (Z_lt_le_dec (Zpos q) (2 ^ 53)) as [Small | Big].
  - (* a quotient of 53 bits *)
    rewrite round_aux_53;
      [| apply digits2_pos_unique; change (53 - 1) with 52; lia | lia].
    rewrite <- Q.
    pose proof (nearest_rne A B ltac:(lia) ltac:(unfold A; lia)) as N.
    set (M := round_nearest_even (A / B) (new_location B (A mod B))) in *.
    exists M, (e1 - e2 - 53).
    split; [reflexivity |].
    assert (EA : A = a * 2 ^ (- e1 + 53 + e2) * 2 ^ (- e2)).
    { unfold A. rewrite V1.
      rewrite <- !Z.mul_assoc, <- !Z.pow_add_r by lia.
      f_equal. f_equal. lia. }
    rewrite EA, V2 in N.
    apply nearest_ceiling in N; try lia.
    + replace (- (e1 - e2 - 53)) with (- e1 + 53 + e2) by lia.
      destruct N. repeat split; try lia.
      * pose proof (proj1 (nearest_rne A B ltac:(lia) ltac:(unfold A; lia))).
        fold M in H1. lia.
      * pose proof (proj1 (nearest_rne A B ltac:(lia) ltac:(unfold A; lia))).
        fold M in H1. lia.
    + rewrite <- EA, <- V2. lia.
  - (* a quotient of 54 bits *)
    rewrite round_aux_54;
      [| apply digits2_pos_unique; change (54 - 1) with 53; lia | lia].
    rewrite <- Q.
    pose proof (nearest_shifted A B ltac:(lia) ltac:(unfold A; lia)) as N.
    set (M := round_nearest_even (A / B / 2)
                (shiftedLoc (A / B) (new_location B (A mod B)))) in *.
    exists M, (e1 - e2 - 53 + 1).
    split; [reflexivity |].
    assert (Fl : A / (2 * B) = A / B / 2)
      by (rewrite Z.mul_comm; symmetry; apply Z.div_div; lia).
    assert (Half : 2 ^ 52 <= A / B / 2 < 2 ^ 53).
    { rewrite Q. split.
      - apply Z.div_le_lower_bound; [lia |].
        change (2 * 2 ^ 52) with (2 ^ 53). lia.
      - apply Z.div_lt_upper_bound; [lia |].
        change (2 * 2 ^ 53) with (2 ^ 54). lia. }
    assert (RM : A / B / 2 <= M <= A / B / 2 + 1)
      by (destruct N as [N _]; rewrite Fl in N; exact N).
    assert (EA : A = a * 2 ^ (- e1 + 52 + e2) * (2 ^ (- e2) * 2)).
    { unfold A. rewrite V1.
      replace (2 ^ 53) with (2 ^ 52 * 2) by reflexivity.
      rewrite <- !Z.mul_assoc. f_equal.
      rewrite !Z.mul_assoc. f_equal.
      rewrite <- !Z.pow_add_r by lia. f_equal. lia. }
    assert (EB : 2 * B = b * (2 ^ (- e2) * 2)) by (rewrite V2; lia).
    rewrite EA, EB in N.
    apply nearest_ceiling in N; try lia.
    + replace (- (e1 - e2 - 53 + 1)) with (- e1 + 52 + e2) by lia.
      repeat split; lia.
    + rewrite <- EA, <- EB, Fl. lia.
Qed.

(** *** Ceil and FormatFloat on the result *)

Lemma toFloat64_53_bits k m :
  Zpos m = k -> 2 ^ 52 <= k < 2 ^ 53 -> toFloat64 k = S754_finite false m 0.
Proof.
  intros E Hk.
  destruct (toFloat64_pos k ltac:(lia)) as (m' & e' & -> & D & He & V).
  assert (e' = 0).
  { destruct (Z.eq_dec e' 0); [assumption |]. exfalso.
    pose proof (digits2_pos_bounds m') as B. rewrite D in B.
    assert (2 ^ 1 <= 2 ^ (- e')) by (apply Z.pow_le_mono_r; lia).
    change (2 ^ 1) with 2 in *. nia. }
  subst e'. f_equal. apply Pos2Z.inj. rewrite V, E. simpl. lia.
Qed.

Lemma Ceil_finite m E k :
  Zpos (digits2_pos m) = 53 -> E <= 0 -> 1 <= k < 2 ^ 53 ->
  (k - 1) * 2 ^ (- E) < Zpos m <= k * 2 ^ (- E) ->
  Ceil (S754_finite false m E) = toFloat64 k.
Proof.
  intros D HE Hk HM. unfold Ceil.
  pose proof (digits2_pos_bounds m) as B. rewrite D in B.
  change (53 - 1) with 52 in B.
  destruct (Z.leb_spec 0 E) as [Z0 | Neg].
  - assert (E = 0) by lia. subst E. change (2 ^ (- 0)) with 1 in HM.
    symmetry. apply toFloat64_53_bits; lia.
  - assert (P : 0 < 2 ^ (- E)) by (apply Z.pow_pos_nonneg; lia).
    fold (ceilDiv (Zpos m) (2 ^ (- E))).
    rewrite (ceilDiv_unique (Zpos m) (2 ^ (- E)) k P HM).
    destruct (Z.eqb_spec k 0); [lia | reflexivity].
Qed.

Lemma Ceil_renorm M E k :
  2 ^ 52 <= M <= 2 ^ 53 -> E <= 0 -> 1 <= k < 2 ^ 53 ->
  (k - 1) * 2 ^ (- E) < M <= k * 2 ^ (- E) ->
  Ceil (renorm false M E) = toFloat64 k.
Proof.
  intros HM HE Hk Hb. destruct M as [| m |]; try lia.
  unfold renorm. destruct (Z.ltb_spec (Zpos m) (2 ^ 53)) as [Small | Big].
  - apply Ceil_finite; try assumption.
    apply digits2_pos_unique. change (53 - 1) with 52. lia.
  - assert (Em : Zpos m = 2 ^ 53) by lia. rewrite Em in Hb.
    assert (E <> 0) by (intros ->; change (2 ^ (- 0)) with 1 in Hb; lia).
    apply Ceil_finite; [reflexivity | lia | assumption |].
    assert (P : 0 < 2 ^ (- (E + 1))) by (apply Z.pow_pos_nonneg; lia).
    assert (S : 2 ^ (- E) = 2 * 2 ^ (- (E + 1))).
    { replace (- E) with (- (E + 1) + 1) by lia.
      rewrite Z.pow_add_r by lia. change (2 ^ 1) with 2. lia. }
    rewrite S in Hb.
    change (Zpos 4503599627370496) with (2 ^ 52).
    change (2 ^ 53) with (2 * 2 ^ 52) in Hb. nia.
Qed.

Lemma decimal_toFloat64 k :
  0 <= k < 2 ^ 53 -> FormatFloat (toFloat64 k) = decimal k.
Proof.
  intros Hk. destruct (Z.eq_dec k 0) as [-> | N]; [reflexivity |].
  destruct (toFloat64_pos k ltac:(lia)) as (m & e & -> & D & He & V).
  unfold FormatFloat. cbn [String.append]. f_equal.
  destruct (Z.leb_spec 0 e).
  - assert (e = 0) by lia. subst e. simpl in V |- *. lia.
  - assert (P : 0 < 2 ^ (- e)) by (apply Z.pow_pos_nonneg; lia).
    unfold roundHalfEven. rewrite V.
    rewrite Z.div_mul, Z.mod_mul by lia.
    change (2 * 0) with 0.
    destruct (Z.compare_spec 0 (2 ^ (- e))); lia.
Qed.

(** The page count of the handler for counts and page sizes below
    [2^53]. *)
Lemma pages_float n pp :
  0 <= n < 2 ^ 53 -> 1 <= pp < 2 ^ 53 ->
  Ceil (SFdiv 53 1024 (toFloat64 n) (toFloat64 pp))
  = toFloat64 (ceilDiv n pp).
Proof.
  intros Hn Hp.
  destruct (toFloat64_pos pp Hp) as (m2 & e2 & E2 & N2).
  destruct (Z.eq_dec n 0) as [-> | NZ].
  - rewrite E2.
    replace (ceilDiv 0 pp) with 0
      by (symmetry; apply ceilDiv_unique; lia).
    reflexivity.
  - destruct (toFloat64_pos n ltac:(lia)) as (m1 & e1 & E1 & N1).
    rewrite E1, E2.
    destruct (SFdiv_normal n pp m1 e1 m2 e2 ltac:(lia) Hp N1 N2)
      as (M & E & -> & HM & HE & Hb).
    pose proof (ceilDiv_spec n pp ltac:(lia)) as K.
    apply Ceil_renorm; try lia. nia.
Qed.

(** C4 (counterexample). The handler counts pages in [float64]. For
    [2^53 + 1] items and one item per page the conversion of the item count
    rounds to [2^53], and the header says 9007199254740992 pages, one less
    than the ceiling of the quotient. *)
Lemma page_count_claim_fails : ~ pageCountClaim.
Proof.
  intros C.
  specialize (C (2 ^ 53 + 1) 1 1 1 ltac:(discriminate) ltac:(discriminate)).
  vm_compute in C. discriminate C.
Qed.

(** C4 (as amended). For an item count from 0 to below [2^53] and a page
    size from 1 to below [2^53], the page count is the float of: 0 when the
    result is empty; otherwise 1 when the page number is negative; otherwise
    the ceiling of the item count over the page size, that is the one [k]
    with [(k - 1) * perPage < items <= k * perPage]. The header carries that
    number in decimal. *)
Theorem page_count_is_ceiling
  (numberOfItems perPageNumber pageNumber resultCount : Z) :
  0 <= numberOfItems < 2 ^ 53 -> 1 <= perPageNumber < 2 ^ 53 ->
  numberOfPages numberOfItems perPageNumber pageNumber resultCount
  = toFloat64
      (expectedPages numberOfItems perPageNumber pageNumber resultCount)
  /\ (ceilDiv numberOfItems perPageNumber - 1) * perPageNumber
     < numberOfItems <= ceilDiv numberOfItems perPageNumber * perPageNumber
  /\ forall (A R : Type) ReadAll (a : A) search (result : R),
       ReadAll a search pageNumber perPageNumber
       = (result, resultCount, numberOfItems, None) ->
       respond A R ReadAll a search pageNumber perPageNumber
       = JSON
           (decimal
              (expectedPages numberOfItems perPageNumber pageNumber
                 resultCount))
           (FormatInt resultCount) result.
Proof.
  intros Hn Hp.
  assert (F : numberOfPages numberOfItems perPageNumber pageNumber
                resultCount
              = toFloat64
                  (expectedPages numberOfItems perPageNumber pageNumber
                     resultCount)).
  { unfold numberOfPages, expectedPages. rewrite pages_float by assumption.
    destruct (resultCount =? 0); [reflexivity |].
    now destruct (pageNumber <? 0). }
  pose proof (ceilDiv_spec numberOfItems perPageNumber ltac:(lia)) as K.
  split; [exact F | split; [exact K |]].
  intros A R ReadAll a search result H. unfold respond. rewrite H, F.
  rewrite decimal_toFloat64; [reflexivity |].
  unfold expectedPages. destruct (resultCount =? 0); [lia |].
  destruct (pageNumber <? 0); [lia |]. nia.
Qed.

Lemma page_count_is_ceiling_witness :
  numberOfPages 120 50 1 50 = toFloat64 3.
Proof.
  refine (proj1 (page_count_is_ceiling 120 50 1 50 _ _));
    split; try (intro C; discriminate C); reflexivity.
Defined.

(** ** Further properties of the read-all handler *)

Lemma Atoi_range s v : Atoi s = Some v -> - 2 ^ 63 <= v <= 2 ^ 63 - 1.
Proof.
  unfold Atoi. destruct s as [| c rest]; [discriminate |].
  destruct (if (Ascii.eqb c "-" || Ascii.eqb c "+")%bool then rest
            else String c rest); [discriminate |].
  destruct (digitsValue _ 0) as [n |]; [| discriminate].
  destruct (Z.leb_spec (- 2 ^ 63) (if Ascii.eqb c "-" then - n else n))
    as [Lo | Lo]; [| discriminate].
  destruct (Z.leb_spec (if Ascii.eqb c "-" then - n else n) (2 ^ 63 - 1))
    as [Hi | Hi]; [| discriminate].
  intros H. inversion H; subst. lia.
Qed.

Lemma parsePage_bounds page pn :
  parsePage page = inr pn -> 0 <= pn <= 2 ^ 63 - 1.
Proof.
  unfold parsePage.
  destruct (Atoi (if String.eqb page "" then "1" else page)) as [v |] eqn:A;
    [| discriminate].
  apply Atoi_range in A.
  destruct (Z.ltb_spec v 0) as [Neg | Pos]; [discriminate |].
  intros H. inversion H; subst. lia.
Qed.

Lemma parsePerPage_bounds max perPage n :
  parsePerPage max perPage = inr n -> n <= max /\ (1 <= max -> 1 <= n).
Proof.
  unfold parsePerPage.
  destruct (if String.eqb perPage "" then Some 0 else Atoi perPage)
    as [v |]; [| discriminate].
  destruct (Z.ltb_spec (if v =? 0 then max else v) 1) as [Lo | Lo];
    [discriminate |].
  destruct (Z.ltb_spec max (if v =? 0 then max else v)) as [Hi | Hi];
    intros H; inversion H; subst; lia.
Qed.

Lemma parse_errors_are_400 max page perPage e :
  parsePage page = inl e \/ parsePerPage max perPage = inl e -> Code e = 400.
Proof.
  intros [H | H].
  - unfold parsePage in H.
    destruct (Atoi _) as [v |]; [| now inversion H].
    destruct (v <? 0); now inversion H.
  - unfold parsePerPage in H.
    destruct (if String.eqb perPage "" then Some 0 else Atoi perPage)
      as [v |]; [| now inversion H].
    destruct ((if v =? 0 then max else v) <? 1); now inversion H.
Qed.

(** X18. Whatever the request carries, the handler either refuses it with a
    400 or a 500, or calls [ReadAll] once, with a page number from 0 to the
    largest [int] and a page size that is at most the configured maximum
    and, when that maximum is at least 1, at least 1. *)
Theorem ReadAll_is_called_within_bounds
  (A R : Type) (ReadAll : A -> string -> Z -> Z -> R * Z * Z * option Error)
  (max : Z) (auth : option A) (bound : bool) (page perPage search : string) :
  (exists e,
     ReadAllWeb A R ReadAll max auth bound page perPage search = Failed e
     /\ (Code e = 400 \/ Code e = 500))
  \/ (exists a pageNumber perPageNumber,
        auth = Some a /\ bound = true
        /\ 0 <= pageNumber <= 2 ^ 63 - 1
        /\ perPageNumber <= max /\ (1 <= max -> 1 <= perPageNumber)
        /\ ReadAllWeb A R ReadAll max auth bound page perPage search
           = respond A R ReadAll a search pageNumber perPageNumber).
Proof.
  unfold ReadAllWeb.
  destruct auth as [a |];
    [| left; eexists; split; [reflexivity | right; reflexivity]].
  destruct bound; simpl negb; cbv iota;
    [| left; eexists; split; [reflexivity | left; reflexivity]].
  destruct (parsePage page) as [e | pn] eqn:P.
  { left. exists e. split; [reflexivity |]. left.
    apply (parse_errors_are_400 max page perPage). left. exact P. }
  destruct (parsePerPage max perPage) as [e | ppn] eqn:Q.
  { left. exists e. split; [reflexivity |]. left.
    apply (parse_errors_are_400 max page perPage). right. exact Q. }
  right. exists a, pn, ppn.
  pose proof (parsePage_bounds _ _ P).
  pose proof (parsePerPage_bounds _ _ _ Q). tauto.
Qed.

Lemma ReadAll_is_called_within_bounds_witness :
  exists pageNumber perPageNumber,
    1 <= perPageNumber <= 50
    /\ ReadAllWeb unit unit (fun _ _ _ _ => (tt, 1, 12, None)) 50 (Some tt)
         true "2" "10" ""
       = respond unit unit (fun _ _ _ _ => (tt, 1, 12, None)) tt ""
           pageNumber perPageNumber.
Proof.
  destruct (ReadAll_is_called_within_bounds unit unit
              (fun _ _ _ _ => (tt, 1, 12, None)) 50 (Some tt) true
              "2" "10" "")
    as [(e & C & _) | (a & pn & ppn & _ & _ & _ & Hle & Hge & E)].
  - vm_compute in C. discriminate C.
  - destruct a. exists pn, ppn. split; [split |].
    + apply Hge. intro C. discriminate C.
    + exact Hle.
    + exact E.
Defined.

(** *** The team list over the handler *)

Lemma Team_ReadAll_no_fault like s u search page perPage :
  Team.faults s = [] ->
  exists s' result,
    Team.ReadAll like s (AuthUser u) search page perPage
    = (s', Some result, Z.of_nat (List.length result),
       Z.of_nat (List.length (Team.teamsOf like s (user.ID u) search)), None)
    /\ Forall Team.emailsBlank result
    /\ (List.length result
        <= List.length (Team.teamsOf like s (user.ID u) search))%nat.
Proof.
  intros F. unfold Team.ReadAll.
  destruct (Team.getLimitFromPageIndex page perPage) as [limit start].
  rewrite F. cbn [nextFault].
  set (all := Team.applyLimit limit start
                (Team.teamsOf like s (Team.GetID (AuthUser u)) search)).
  pose proof (TeamFacts.addMoreInfoToTeams_blank (Team.withFaults s []) all
                (TeamFacts.applyLimit_blank _ _ _
                   (TeamFacts.teamsOf_blank _ _ _ _))) as B.
  destruct (TeamFacts.addMoreInfoToTeams_stored (Team.withFaults s []) all)
    as [C _].
  destruct (TeamFacts.applyLimit_spec limit start
              (Team.teamsOf like s (Team.GetID (AuthUser u)) search))
    as [_ Len].
  fold all in Len.
  unfold Team.addMoreInfoToTeams in *. cbn [Team.faults Team.withFaults] in *.
  cbn [nextFault] in *.
  destruct (Team.assignMembers _ all) as [um ts']. cbn [fst snd] in *.
  cbn [Team.faults Team.withFaults nextFault].
  eexists. eexists. split; [reflexivity |]. split; [exact B |].
  assert (L : List.length (Team.assignOwners um ts') = List.length all)
    by (rewrite <- (length_map Team.stored (Team.assignOwners um ts')), C;
        apply length_map).
  rewrite L. exact Len.
Qed.

(** X19. The team list served over the handler. For a user, a session in
    which no statement fails, a configured maximum from 1 to below [2^53]
    and fewer than [2^53] matching teams, the handler either refuses the
    pagination parameters with a 400, or answers with the teams of the
    page, none of them showing a member email, the result-count header
    giving their number and the total-pages header giving 0 for an empty
    page and otherwise the ceiling of the number of matching teams over the
    page size. *)
Theorem teams_page_count
  (like : string -> string -> bool) (s : Team.Session) (u : user.User)
  (max : Z) (page perPage search : string) :
  1 <= max < 2 ^ 53 ->
  Team.faults s = [] ->
  Z.of_nat (List.length (Team.teamsOf like s (user.ID u) search)) < 2 ^ 53 ->
  (exists e,
     ReadAllWeb Auth (option (list Team.t)) (teamsReadAll like s) max
       (Some (AuthUser u)) true page perPage search = Failed e
     /\ Code e = 400)
  \/ (exists result perPageNumber,
        parsePerPage max perPage = inr perPageNumber
        /\ ReadAllWeb Auth (option (list Team.t)) (teamsReadAll like s) max
             (Some (AuthUser u)) true page perPage search
           = JSON
               (decimal
                  (if Z.of_nat (List.length result) =? 0 then 0
                   else ceilDiv
                          (Z.of_nat
                             (List.length
                                (Team.teamsOf like s (user.ID u) search)))
                          perPageNumber))
               (decimal (Z.of_nat (List.length result)))
               (Some result)
        /\ Forall Team.emailsBlank result
        /\ (List.length result
            <= List.length (Team.teamsOf like s (user.ID u) search))%nat).
Proof.
  intros Hmax F Hlen. rewrite ReadAllWeb_parameters.
  destruct (parsePage page) as [e | pn] eqn:P.
  { left. exists e. split; [reflexivity |].
    apply (parse_errors_are_400 max page perPage). now left. }
  destruct (parsePerPage max perPage) as [e | ppn] eqn:Q.
  { left. exists e. split; [reflexivity |].
    apply (parse_errors_are_400 max page perPage). now right. }
  right.
  pose proof (parsePage_bounds _ _ P) as Bp.
  pose proof (parsePerPage_bounds _ _ _ Q) as [Bq1 Bq2].
  destruct (Team_ReadAll_no_fault like s u search pn ppn F)
    as (s' & result & E & Blank & Len).
  exists result, ppn. split; [reflexivity |]. split; [| split; assumption].
  unfold respond, teamsReadAll. rewrite E.
  set (total := Z.of_nat (List.length (Team.teamsOf like s (user.ID u) search)))
    in *.
  set (n := Z.of_nat (List.length result)).
  assert (Hn : 0 <= n) by apply Nat2Z.is_nonneg.
  assert (Ht : 0 <= total) by apply Nat2Z.is_nonneg.
  unfold numberOfPages. rewrite pages_float by lia.
  destruct (Z.ltb_spec pn 0) as [C | _]; [lia |].
  pose proof (ceilDiv_spec total ppn ltac:(lia)) as K.
  unfold FormatInt. destruct (Z.ltb_spec n 0) as [C | _]; [lia |].
  destruct (n =? 0); (rewrite decimal_toFloat64; [reflexivity |]);
    [lia | nia].
Qed.

Lemma teams_page_count_witness :
  ReadAllWeb Auth (option (list Team.t))
    (teamsReadAll (fun _ _ => true) (Team.sampleDB [])) 50
    (Some (AuthUser Team.bob)) true "1" "1" ""
  = JSON "2" "1"
      (Some
         [Team.mk 1 "Ops" "" 1 (Some (user.mkUser 1 "alice" ""))
            [TeamUser.mk (user.mkUser 1 "alice" "") true 1;
             TeamUser.mk (user.mkUser 2 "bob" "") false 1] 10 10]).
Proof.
  assert (M : 1 <= 50 < 2 ^ 53) by (split; [intro C | ]; reflexivity || discriminate C).
  assert (L : Z.of_nat
                (List.length
                   (Team.teamsOf (fun _ _ => true) (Team.sampleDB [])
                      (user.ID Team.bob) "")) < 2 ^ 53) by reflexivity.
  destruct (teams_page_count (fun _ _ => true) (Team.sampleDB []) Team.bob 50
              "1" "1" "" M eq_refl L) as [(e & C & _) | (r & p & _ & _ & _)].
  - discriminate C.
  - reflexivity.
Defined.

End HandlerFacts.
